(** * DictionaryDash: word ladders by multi-path breadth-first search

    A shallow embedding of [DictionaryDash.py] and the proofs of its
    specification.  Words are lists of characters, the Python [dict] of the
    pattern index is a [gmap], Python [set]s are duplicate-free lists whose
    iteration order is left to the runtime, exceptions are an error monad and
    the [while] loop of the search is driven by a round counter. *)

From Stdlib Require Import Ascii String ZArith.
From stdpp Require Import gmap list fin_maps.

Local Open Scope Z_scope.
Local Open Scope nat_scope.

(** ** Words *)

(** A Python 2 [str]: a sequence of characters. *)
Abbreviation word := (list ascii).

(** Reads a string literal as a word. *)
Definition w (s : string) : word := list_ascii_of_string s.

(** ** Exceptions *)

Inductive exn : Type :=
| ValueError
| AssertionError
| KeyError
| IndexError.

Inductive result (A : Type) : Type :=
| Ok (a : A)
| Raise (e : exn).
Arguments Ok {A} a.
Arguments Raise {A} e.

(** Sequencing stops at the first exception; [x ← r; k] is stdpp's notation
    for it. *)
#[global] Instance result_bind : MBind result := fun A B k r =>
  match r with
  | Ok a => k a
  | Raise e => Raise e
  end.

(** ** The Python runtime

    Two things are left to the interpreter: the value of [hash] on a string
    (different strings may collide) and the order in which a [set] is
    iterated.  A set is kept as the duplicate-free list of its elements in
    insertion order; iterating it visits [set_order] of that list, some
    rearrangement of the same elements. *)

Class PyRuntime : Type := {
  hash : word -> Z;
  set_order : list word -> list word;
  set_order_perm : forall l, set_order l ≡ₚ l
}.

(** [s.add(x)] *)
Definition set_add (x : word) (s : list word) : list word :=
  if decide (x ∈ s) then s else s ++ [x].

(** [s.update(t)] *)
Definition set_update (s t : list word) : list word :=
  foldl (fun acc x => set_add x acc) s t.

(** [s.remove(x)], which raises [KeyError] when [x] is absent. *)
Definition set_remove (x : word) (s : list word) : result (list word) :=
  if decide (x ∈ s) then Ok (filter (fun y => y ≠ x) s) else Raise KeyError.

(** ** legalTransformation *)

(** The [for idx in xrange(len(word1))] loop, both words walked in step;
    [foundMissmatch] is the flag of the source. *)
Fixpoint legalLoop (word1 word2 : word) (foundMissmatch : bool) : bool :=
  match word1, word2 with
  | c1 :: rest1, c2 :: rest2 =>
      if decide (c1 ≠ c2) then
        if foundMissmatch then false
        else legalLoop rest1 rest2 true
      else legalLoop rest1 rest2 foundMissmatch
  | _, _ => foundMissmatch
  end.

Definition legalTransformation (word1 word2 : word) : bool :=
  if decide (length word1 ≠ length word2 ∨ length word1 < 1) then false
  else legalLoop word1 word2 false.

(** The two words differ at position [i] and nowhere else. *)
Definition differ_only_at (i : nat) (word1 word2 : word) : Prop :=
  i < length word1 ∧ word1 !! i ≠ word2 !! i ∧
  ∀ j, j < length word1 → j ≠ i → word1 !! j = word2 !! j.

Definition differ_in_exactly_one (word1 word2 : word) : Prop :=
  ∃ i, differ_only_at i word1 word2.

(** ** OrganisedDictionary *)

Record OrganisedDictionary : Type := {
  od_words : list word;
  hashedWords : gmap Z (list word);
  wordLength : option nat
}.

(** ** SearchPath *)

Record SearchPath : Type := { words : list word }.

Definition addWord (p : SearchPath) (wd : word) : SearchPath :=
  {| words := words p ++ [wd] |}.

Definition SearchPath_init (firstWord : option word) : SearchPath :=
  let self := {| words := [] |} in
  match firstWord with
  | Some wd => addWord self wd
  | None => self
  end.

(** [self.__words[-1]] *)
Definition lastWord (p : SearchPath) : result word :=
  match last (words p) with
  | Some wd => Ok wd
  | None => Raise IndexError
  end.

Definition numTransformations (p : SearchPath) : Z :=
  (Z.of_nat (length (words p)) - 1)%Z.

Definition makeCopy (p : SearchPath) : SearchPath :=
  foldl addWord (SearchPath_init None) (words p).

(** [l.pop()]: the list without its last element, and that element. *)
Definition list_pop (l : list word) : result (list word * word) :=
  match last l with
  | Some wd => Ok (take (length l - 1) l, wd)
  | None => Raise IndexError
  end.

(** ** DictionaryDash *)

(** The fields of the object.  The last three are assigned by the first
    query; before it they hold the values given by [DictionaryDash_init]. *)
Record DictionaryDash : Type := {
  dictionary : list word;
  organisedDictionary : OrganisedDictionary;
  reachedWords : list word;
  searchPaths : list SearchPath;
  targetWord : word;
  successfulPath : option SearchPath;
  finished : bool
}.

(** The states of the search. *)
Inductive SearchState : Type := Active | Succeeded | Exhausted.

Definition searchState (dd : DictionaryDash) : SearchState :=
  if finished dd then
    match successfulPath dd with
    | Some _ => Succeeded
    | None => Exhausted
    end
  else Active.

Section Program.
Context `{PyRuntime}.

(** [word[:idx] + '_' + word[idx+1:]] *)
Definition editWord (idx : nat) (wd : word) : word :=
  take idx wd ++ "_"%char :: drop (S idx) wd.

Definition getAllWordHashNumbers (wd : word) : list Z :=
  (fun idx => hash (editWord idx wd)) <$> seq 0 (length wd).

(** [hashedWords.setdefault(hashNumber, set()).add(word)] *)
Definition addToBucket (wd : word) (m : gmap Z (list word)) (hashNumber : Z)
  : gmap Z (list word) :=
  <[hashNumber := set_add wd (default [] (m !! hashNumber))]> m.

(** The body of the constructor's loop, once the length check has passed. *)
Definition indexWord (m : gmap Z (list word)) (wd : word) : gmap Z (list word) :=
  foldl (addToBucket wd) m (getAllWordHashNumbers wd).

Fixpoint initLoop (wl : nat) (m : gmap Z (list word)) (ws : list word)
  : result (gmap Z (list word)) :=
  match ws with
  | [] => Ok m
  | wd :: rest =>
      if decide (length wd ≠ wl) then Raise ValueError
      else initLoop wl (indexWord m wd) rest
  end.

(** [OrganisedDictionary.__init__] *)
Definition OrganisedDictionary_init (ws : list word) : result OrganisedDictionary :=
  match ws with
  | [] => Ok {| od_words := ws; hashedWords := ∅; wordLength := None |}
  | first :: _ =>
      m ← initLoop (length first) ∅ ws;
      Ok {| od_words := ws; hashedWords := m; wordLength := Some (length first) |}
  end.

(** The loop [for hashNumber in hashNumbers: matchingWords.update(...)];
    a missing key raises [KeyError]. *)
Fixpoint collectBuckets (m : gmap Z (list word)) (matchingWords : list word)
    (hashNumbers : list Z) : result (list word) :=
  match hashNumbers with
  | [] => Ok matchingWords
  | hashNumber :: rest =>
      match m !! hashNumber with
      | None => Raise KeyError
      | Some bucket => collectBuckets m (set_update matchingWords bucket) rest
      end
  end.

Definition getTransformableWords (od : OrganisedDictionary) (wd : word)
  : result (list word) :=
  if decide (wd ∈ od_words od) then
    matchingWords ← collectBuckets (hashedWords od) [] (getAllWordHashNumbers wd);
    matchingWords ← set_remove wd matchingWords;
    Ok (filter (fun matchWord => legalTransformation wd matchWord = true)
               (set_order matchingWords))
  else Raise AssertionError.

(** [DictionaryDash.__init__] *)
Definition DictionaryDash_init (dict : list word) : result DictionaryDash :=
  od ← OrganisedDictionary_init dict;
  Ok {| dictionary := dict; organisedDictionary := od;
        reachedWords := []; searchPaths := [];
        targetWord := []; successfulPath := None; finished := false |}.

(** What the body of the loop of [__extendPaths] does with one path. *)
Inductive Extension : Type :=
| DeadEnd
| Found (winner : SearchPath)
| Branch (extended : list SearchPath) (claimed : list word).

(** The body of the [for searchPath in self.__searchPaths] loop, against the
    current [self.__reachedWords].  [DeadEnd] is the [continue], [Found]
    the [break] with the target appended, and [Branch] carries what the
    body appends to the local [searchPaths], namely the path itself and
    then its copies, and to [self.__reachedWords].  The path object that
    goes back onto the list is extended in place afterwards, so the list
    holds it with its new last word. *)
Definition extendPath (od : OrganisedDictionary) (target : word)
    (reached : list word) (searchPath : SearchPath) : result Extension :=
  lw ← lastWord searchPath;
  nextWords ← getTransformableWords od lw;
  let validNextWords := filter (fun wd => wd ∉ reached) nextWords in
  if decide (validNextWords = []) then Ok DeadEnd
  else if decide (target ∈ validNextWords) then
    Ok (Found (addWord searchPath target))
  else
    popped ← list_pop validNextWords;
    let '(validNextWords, wd) := popped in
    let copies :=
      (fun validNextWord => addWord (makeCopy searchPath) validNextWord)
        <$> validNextWords in
    Ok (Branch (addWord searchPath wd :: copies) (validNextWords ++ [wd])).

(** The loop of [__extendPaths]: [newPaths] is the local list [searchPaths],
    [reached] is [self.__reachedWords], and the third component of the
    result is the winning path when the loop was left by [break]. *)
Fixpoint extendLoop (od : OrganisedDictionary) (target : word)
    (paths newPaths : list SearchPath) (reached : list word)
  : result (list SearchPath * list word * option SearchPath) :=
  match paths with
  | [] => Ok (newPaths, reached, None)
  | searchPath :: rest =>
      ext ← extendPath od target reached searchPath;
      match ext with
      | DeadEnd => extendLoop od target rest newPaths reached
      | Found winner => Ok (newPaths, reached, Some winner)
      | Branch extended claimed =>
          extendLoop od target rest (newPaths ++ extended) (reached ++ claimed)
      end
  end.

(** [DictionaryDash.__extendPaths]: one round. *)
Definition extendPaths (dd : DictionaryDash) : result DictionaryDash :=
  r ← extendLoop (organisedDictionary dd) (targetWord dd)
        (searchPaths dd) [] (reachedWords dd);
  let '(newPaths, reached, found) := r in
  Ok {| dictionary := dictionary dd;
        organisedDictionary := organisedDictionary dd;
        reachedWords := reached;
        searchPaths := newPaths;
        targetWord := targetWord dd;
        successfulPath :=
          match found with
          | Some p => Some p
          | None => successfulPath dd
          end;
        finished :=
          if found is Some _ then true
          else if decide (newPaths = []) then true
          else finished dd |}.

(** [while not self.__finished: self.__extendPaths()], for at most
    [rounds] rounds; [None] when more rounds are needed. *)
Fixpoint searchLoop (rounds : nat) (dd : DictionaryDash)
  : option (result DictionaryDash) :=
  if finished dd then Some (Ok dd)
  else
    match rounds with
    | 0 => None
    | S n =>
        match extendPaths dd with
        | Raise e => Some (Raise e)
        | Ok dd' => searchLoop n dd'
        end
    end.

(** The state a query starts from. *)
Definition startQuery (dd : DictionaryDash) (startWord endWord : word)
  : DictionaryDash :=
  {| dictionary := dictionary dd;
     organisedDictionary := organisedDictionary dd;
     reachedWords := [startWord];
     searchPaths := [SearchPath_init (Some startWord)];
     targetWord := endWord;
     successfulPath := None;
     finished := false |}.

Definition getShortestTransformationSequence (rounds : nat)
    (dd : DictionaryDash) (startWord endWord : word)
  : option (result (DictionaryDash * option SearchPath)) :=
  match searchLoop rounds (startQuery dd startWord endWord) with
  | None => None
  | Some (Raise e) => Some (Raise e)
  | Some (Ok dd') => Some (Ok (dd', successfulPath dd'))
  end.

(** The caller's list after the two [append]s. *)
Definition augment (startWord endWord : word) (dict : list word) : list word :=
  let dict := if decide (startWord ∈ dict) then dict else dict ++ [startWord] in
  if decide (endWord ∈ dict) then dict else dict ++ [endWord].

(** [lengthOfShortestTransform]: the caller's list as the call leaves it,
    and what the call returns or raises. *)
Definition lengthOfShortestTransform (rounds : nat)
    (startWord endWord : word) (dict : list word)
  : list word * option (result Z) :=
  let dict := augment startWord endWord dict in
  (dict,
   match DictionaryDash_init dict with
   | Raise e => Some (Raise e)
   | Ok dictionaryDash =>
       match getShortestTransformationSequence rounds dictionaryDash
               startWord endWord with
       | None => None
       | Some (Raise e) => Some (Raise e)
       | Some (Ok (_, None)) => Some (Ok (-1)%Z)
       | Some (Ok (_, Some searchPath)) => Some (Ok (numTransformations searchPath))
       end
   end).

End Program.

(** ** What a built index holds *)

Section IndexInvariant.
Context `{PyRuntime}.

(** Every bucket is a set of words of [dict]. *)
Definition buckets_within (dict : list word) (m : gmap Z (list word)) : Prop :=
  ∀ h b, m !! h = Some b → NoDup b ∧ ∀ v, v ∈ b → v ∈ dict.

(** The word sits in the bucket of each of its masked variants. *)
Definition filed (m : gmap Z (list word)) (v : word) : Prop :=
  ∀ i, i < length v → ∃ b, m !! hash (editWord i v) = Some b ∧ v ∈ b.

Definition index_of (dict : list word) (od : OrganisedDictionary) : Prop :=
  od_words od = dict ∧
  buckets_within dict (hashedWords od) ∧
  (∀ v, v ∈ dict → filed (hashedWords od) v) ∧
  (∀ u v, u ∈ dict → v ∈ dict → length u = length v).

End IndexInvariant.

(** ** Ladders *)

(** Every consecutive pair of the sequence is a legal transformation. *)
Fixpoint chain (ws : list word) : Prop :=
  match ws with
  | a :: (b :: _) as rest => legalTransformation a b = true ∧ chain rest
  | _ => True
  end.

(** A ladder from [startWord] to [endWord] through the words of [dict]. *)
Definition ladder (dict : list word) (startWord endWord : word)
    (ws : list word) : Prop :=
  head ws = Some startWord ∧ last ws = Some endWord ∧
  (∀ x, x ∈ ws → x ∈ dict) ∧ chain ws.

(** Some ladder of at most [n] transformations leads from [startWord] to
    the word. *)
Inductive within (dict : list word) (startWord : word) : nat → word → Prop :=
| within_start n :
    startWord ∈ dict → within dict startWord n startWord
| within_step n u v :
    within dict startWord n u → legalTransformation u v = true → v ∈ dict →
    within dict startWord (S n) v.

(** ** The invariant of the search *)

(** A path of round [r]: a ladder from the start word of [r]
    transformations that repeats no word. *)
Definition good_path (dict : list word) (startWord : word) (r : nat)
    (p : SearchPath) : Prop :=
  (∃ e, ladder dict startWord e (words p)) ∧
  length (words p) = S r ∧ NoDup (words p).

(** What holds of the paths and the reached words when round [r] begins. *)
Record round_inv (dict : list word) (startWord endWord : word) (r : nat)
    (paths : list SearchPath) (reached : list word) : Prop := {
  inv_paths : ∀ p, p ∈ paths →
    good_path dict startWord r p ∧ ∀ x, x ∈ words p → x ∈ reached;
  inv_complete : ∀ x, within dict startWord r x → x ∈ reached;
  inv_frontier : ∀ x, x ∈ reached →
    (∃ r', r' < r ∧ within dict startWord r' x) ∨
    (∃ p, p ∈ paths ∧ last (words p) = Some x);
  inv_target : startWord ≠ endWord → endWord ∉ reached
}.

(** What holds inside round [r], of the paths collected so far and of the
    reached words, [reached0] being the reached words when the round began. *)
Record loop_inv (dict : list word) (startWord endWord : word) (r : nat)
    (reached0 : list word) (newPaths : list SearchPath) (reached : list word)
  : Prop := {
  linv_paths : ∀ q, q ∈ newPaths →
    good_path dict startWord (S r) q ∧ ∀ x, x ∈ words q → x ∈ reached;
  linv_frontier : ∀ x, x ∈ reached →
    x ∈ reached0 ∨ ∃ q, q ∈ newPaths ∧ last (words q) = Some x;
  linv_target : endWord ∈ reached → endWord ∈ reached0
}.

(** What each outcome of [extendPath] says about the neighbours of the
    path's last word [e]. *)
Definition extension_spec (dict : list word) (target : word)
    (reached : list word) (p : SearchPath) (e : word) (ext : Extension)
  : Prop :=
  match ext with
  | DeadEnd =>
      ∀ v, v ∈ dict → legalTransformation e v = true → v ∈ reached
  | Found q =>
      q = addWord p target ∧ target ∈ dict ∧
      legalTransformation e target = true ∧ target ∉ reached
  | Branch extended claimed =>
      NoDup claimed ∧ claimed ≠ [] ∧ (target ∉ claimed) ∧
      (∀ v, v ∈ claimed ↔
         v ∈ dict ∧ legalTransformation e v = true ∧ v ∉ reached) ∧
      (∀ q, q ∈ extended ↔ ∃ v, v ∈ claimed ∧ q = addWord p v)
  end.

Section SearchInvariant.
Context `{PyRuntime}.

(** The state of a query on [dict] from [startWord] to [endWord] that is
    about to run round [r]. *)
Definition dd_inv (dict : list word) (startWord endWord : word) (r : nat)
    (dd : DictionaryDash) : Prop :=
  index_of dict (organisedDictionary dd) ∧
  targetWord dd = endWord ∧
  finished dd = false ∧
  successfulPath dd = None ∧
  searchPaths dd ≠ [] ∧
  round_inv dict startWord endWord r (searchPaths dd) (reachedWords dd).

(** What the search has established when it stops. *)
Definition search_result (dict : list word) (s t : word)
    (dd' : DictionaryDash) : Prop :=
  finished dd' = true ∧
  match successfulPath dd' with
  | Some q =>
      ∃ r, good_path dict s (S r) q ∧ last (words q) = Some t ∧
           ¬ within dict s r t
  | None => s ≠ t → ∀ n, ¬ within dict s n t
  end.

End SearchInvariant.

(** ** A runtime to compute with

    Hashing adds up the character codes, so that anagrams collide, and a set
    is iterated in insertion order. *)

Definition sum_hash (wd : word) : Z :=
  foldr (fun c acc => (Z.of_nat (nat_of_ascii c) + acc)%Z) 0%Z wd.

Definition simple_runtime : PyRuntime := {|
  hash := sum_hash;
  set_order := fun l => l;
  set_order_perm := fun l => reflexivity l
|}.

(** A second one, which iterates sets backwards. *)
Definition reverse_runtime : PyRuntime := {|
  hash := sum_hash;
  set_order := @reverse (list ascii);
  set_order_perm := @reverse_Permutation (list ascii)
|}.

(** The value [lengthOfShortestTransform] returns for a finished search. *)
Definition answer (dd' : DictionaryDash) : Z :=
  match successfulPath dd' with
  | Some searchPath => numTransformations searchPath
  | None => (-1)%Z
  end.

(** The characterisation of the result [-1] by the absence of a ladder, at
    one input. *)
Definition minus_one_iff_no_ladder `{PyRuntime}
    (startWord endWord : word) (dict : list word) : Prop :=
  (∃ rounds, snd (lengthOfShortestTransform rounds startWord endWord dict)
             = Some (Ok (-1)%Z)) ↔
  (∀ ws, ¬ ladder (augment startWord endWord dict) startWord endWord ws).

(** A query whose target no ladder reaches ends exhausted, with no path,
    within [length dict] rounds. *)
Definition unreachable_exhausts `{PyRuntime} (dict : list word)
    (dd : DictionaryDash) (startWord endWord : word) : Prop :=
  (∀ ws, ¬ ladder dict startWord endWord ws) →
  ∃ rounds dd',
    rounds ≤ length dict ∧
    getShortestTransformationSequence rounds dd startWord endWord
      = Some (Ok (dd', None)) ∧
    searchState dd' = Exhausted.

(** The words of the examples. *)
Definition hot : word := w "hot".
Definition dot : word := w "dot".
Definition dog : word := w "dog".
Definition lot : word := w "lot".
Definition log : word := w "log".
Definition cog : word := w "cog".
Definition xyz : word := w "xyz".
Definition xy : word := w "xy".

Definition six_words : list word := [hot; dot; dog; lot; log; cog].
Definition three_words : list word := [hot; dot; dog].

(** The index and the search object of the six words under
    [simple_runtime], written out. *)
Definition six_index : OrganisedDictionary :=
  {| od_words := six_words;
     hashedWords := foldl (indexWord (H := simple_runtime)) ∅ six_words;
     wordLength := Some 3 |}.

Definition six_dash : DictionaryDash :=
  {| dictionary := six_words; organisedDictionary := six_index;
     reachedWords := []; searchPaths := [];
     targetWord := []; successfulPath := None; finished := false |}.

(** * Proofs *)

(** ** legalTransformation *)

Lemma legalLoop_found (word1 word2 : word) :
  length word1 = length word2 →
  legalLoop word1 word2 true = true ↔ word1 = word2.
Proof.
  revert word2. induction word1 as [|c1 r1 IH]; intros [|c2 r2] Hlen;
    simpl in *; try discriminate; [done|].
  destruct (decide (c1 ≠ c2)) as [Hne|Heq].
  - split; [discriminate | intros [= ? ?]; done].
  - apply dec_stable in Heq as ->. rewrite IH by lia.
    split; [by intros -> | by intros [= ->]].
Qed.

Lemma differ_only_at_head (c1 c2 : ascii) (r1 r2 : word) :
  c1 ≠ c2 → length r1 = length r2 →
  differ_in_exactly_one (c1 :: r1) (c2 :: r2) ↔ r1 = r2.
Proof.
  intros Hne Hlen. split.
  - intros (i & Hi & Hd & Hrest).
    destruct i as [|i].
    + apply list_eq. intros j.
      destruct (decide (j < length r1)) as [Hj|Hj].
      * apply (Hrest (S j)); simpl; lia.
      * rewrite !lookup_ge_None_2; [done | lia | lia].
    + specialize (Hrest 0). simpl in Hrest.
      assert (Some c1 = Some c2) as [= ?] by (apply Hrest; lia). done.
  - intros ->. exists 0. unfold differ_only_at. simpl.
    repeat split; [lia | congruence |].
    intros [|j] ? ?; [lia | done].
Qed.

Lemma differ_only_at_tail (c : ascii) (r1 r2 : word) :
  differ_in_exactly_one (c :: r1) (c :: r2) ↔ differ_in_exactly_one r1 r2.
Proof.
  split.
  - intros (i & Hi & Hd & Hrest). destruct i as [|i]; [done|].
    exists i. unfold differ_only_at. simpl in *. repeat split; [lia | done |].
    intros j ? ?. apply (Hrest (S j)); lia.
  - intros (i & Hi & Hd & Hrest). exists (S i). unfold differ_only_at. simpl.
    repeat split; [lia | done |].
    intros [|j] ? ?; [done|]. apply Hrest; lia.
Qed.

Lemma legalLoop_fresh (word1 word2 : word) :
  length word1 = length word2 →
  legalLoop word1 word2 false = true ↔ differ_in_exactly_one word1 word2.
Proof.
  revert word2. induction word1 as [|c1 r1 IH]; intros [|c2 r2] Hlen;
    simpl in *; try discriminate.
  - split; [discriminate|]. intros (i & Hi & _). simpl in Hi. lia.
  - destruct (decide (c1 ≠ c2)) as [Hne|Heq].
    + rewrite legalLoop_found, differ_only_at_head by (done || lia). done.
    + apply dec_stable in Heq as ->.
      rewrite IH, differ_only_at_tail by lia. done.
Qed.

Lemma legal_iff (word1 word2 : word) :
  legalTransformation word1 word2 = true ↔
  length word1 = length word2 ∧ length word1 ≠ 0 ∧
  differ_in_exactly_one word1 word2.
Proof.
  unfold legalTransformation. case_decide as Hg.
  - split; [discriminate|]. intros (? & ? & _). lia.
  - rewrite legalLoop_fresh by lia. split; [intros ?; repeat split; (lia || done)|].
    by intros (_ & _ & ?).
Qed.

Lemma legal_length (word1 word2 : word) :
  legalTransformation word1 word2 = true → length word1 = length word2.
Proof. rewrite legal_iff. tauto. Qed.

Lemma legal_nonempty (word1 word2 : word) :
  legalTransformation word1 word2 = true → word1 ≠ [].
Proof. rewrite legal_iff. intros (_ & ? & _) ->. done. Qed.

Lemma legal_irrefl (wd : word) : legalTransformation wd wd = false.
Proof.
  apply not_true_is_false. rewrite legal_iff.
  intros (_ & _ & i & _ & Hd & _). done.
Qed.

Lemma legal_sym (word1 word2 : word) :
  legalTransformation word1 word2 = true →
  legalTransformation word2 word1 = true.
Proof.
  rewrite !legal_iff. intros (Hlen & Hne & i & Hi & Hd & Hrest).
  repeat split; [lia | lia |]. exists i.
  repeat split; [lia | congruence |].
  intros j ? ?. symmetry. apply Hrest; lia.
Qed.

(** C6.  [legalTransformation] answers true exactly when the two words have
    the same non-zero length and differ at one position and nowhere else; it
    answers false for words of unequal length, for an empty word, for two
    identical words and for words that differ at two positions or more. *)
Theorem legalTransformation_spec (word1 word2 : word) :
  (legalTransformation word1 word2 = true ↔
     length word1 = length word2 ∧ length word1 ≠ 0 ∧
     differ_in_exactly_one word1 word2) ∧
  (length word1 ≠ length word2 → legalTransformation word1 word2 = false) ∧
  (word1 = [] ∨ word2 = [] → legalTransformation word1 word2 = false) ∧
  (word1 = word2 → legalTransformation word1 word2 = false) ∧
  (∀ i j, i ≠ j → word1 !! i ≠ word2 !! i → word1 !! j ≠ word2 !! j →
     legalTransformation word1 word2 = false).
Proof.
  split; [apply legal_iff|]. repeat split.
  - intros Hlen. apply not_true_is_false. rewrite legal_iff. tauto.
  - intros Hnil. apply not_true_is_false. rewrite legal_iff.
    intros (Hlen & Hne & _). destruct Hnil as [-> | ->]; simpl in *; lia.
  - intros ->. apply legal_irrefl.
  - intros i j Hij Hi Hj. apply not_true_is_false. rewrite legal_iff.
    intros (Hlen & _ & k & _ & _ & Hrest).
    assert (∀ n, n ≠ k → word1 !! n = word2 !! n) as Hsame.
    { intros n Hn. destruct (decide (n < length word1)); [by apply Hrest|].
      rewrite !lookup_ge_None_2; [done | lia | lia]. }
    destruct (decide (i = k)) as [->|]; [apply Hj, Hsame; congruence|].
    by apply Hi, Hsame.
Qed.

(** ** Sets as duplicate-free lists *)

Lemma elem_of_set_add (x v : word) (s : list word) :
  v ∈ set_add x s ↔ v = x ∨ v ∈ s.
Proof.
  unfold set_add. destruct (decide (x ∈ s)) as [Hx|Hx].
  - split; [auto|]. intros [->|?]; done.
  - rewrite elem_of_app, list_elem_of_singleton. tauto.
Qed.

Lemma NoDup_set_add (x : word) (s : list word) : NoDup s → NoDup (set_add x s).
Proof.
  intros Hs. unfold set_add. case_decide; [done|].
  apply NoDup_app. split_and!; [done | | apply NoDup_singleton].
  intros y Hy ->%list_elem_of_singleton. done.
Qed.

Lemma elem_of_set_update (v : word) (s t : list word) :
  v ∈ set_update s t ↔ v ∈ s ∨ v ∈ t.
Proof.
  unfold set_update. revert s. induction t as [|x t IH]; intros s; simpl.
  - rewrite elem_of_nil. tauto.
  - rewrite IH, elem_of_set_add, elem_of_cons. tauto.
Qed.

Lemma NoDup_set_update (s t : list word) : NoDup s → NoDup (set_update s t).
Proof.
  unfold set_update. revert s. induction t as [|x t IH]; intros s Hs; simpl;
    [done|]. by apply IH, NoDup_set_add.
Qed.

(** ** The pattern index *)

Section IndexProofs.
Context `{PyRuntime}.

Lemma addToBucket_within dict m wd h :
  buckets_within dict m → wd ∈ dict → buckets_within dict (addToBucket wd m h).
Proof.
  intros Hm Hwd h' b. unfold addToBucket. rewrite lookup_insert.
  case_decide as Hh; [|apply Hm]. intros [= <-].
  destruct (m !! h) as [b0|] eqn:Hb0; simpl.
  - destruct (Hm _ _ Hb0) as [Hnd Hin]. split; [by apply NoDup_set_add|].
    intros v [->|?]%elem_of_set_add; auto.
  - split; [apply NoDup_set_add, NoDup_nil_2|].
    intros v [->|?%elem_of_nil]%elem_of_set_add; done.
Qed.

Lemma addToBucket_keeps m wd h h' b v :
  m !! h' = Some b → v ∈ b →
  ∃ b', addToBucket wd m h !! h' = Some b' ∧ v ∈ b'.
Proof.
  intros Hb Hv. unfold addToBucket. rewrite lookup_insert.
  case_decide as Hh; [subst h'; rewrite Hb|]; simpl; [|eauto].
  eexists. split; [done|]. apply elem_of_set_add. auto.
Qed.

Lemma addToBucket_files m wd h :
  ∃ b', addToBucket wd m h !! h = Some b' ∧ wd ∈ b'.
Proof.
  unfold addToBucket. rewrite lookup_insert_eq. eexists. split; [done|].
  apply elem_of_set_add. auto.
Qed.

Lemma fold_addToBucket_within dict wd hs m :
  buckets_within dict m → wd ∈ dict →
  buckets_within dict (foldl (addToBucket wd) m hs).
Proof.
  revert m. induction hs as [|h hs IH]; intros m Hm Hwd; simpl; [done|].
  apply IH; [by apply addToBucket_within | done].
Qed.

Lemma fold_addToBucket_keeps wd hs m h' b v :
  m !! h' = Some b → v ∈ b →
  ∃ b', foldl (addToBucket wd) m hs !! h' = Some b' ∧ v ∈ b'.
Proof.
  revert m b. induction hs as [|h hs IH]; intros m b Hb Hv; simpl; [eauto|].
  destruct (addToBucket_keeps m wd h h' b v Hb Hv) as (b' & Hb' & Hv').
  by apply (IH _ b').
Qed.

Lemma fold_addToBucket_files wd hs m h :
  h ∈ hs → ∃ b', foldl (addToBucket wd) m hs !! h = Some b' ∧ wd ∈ b'.
Proof.
  revert m. induction hs as [|h0 hs IH]; intros m Hh; simpl;
    [by apply elem_of_nil in Hh|].
  destruct (decide (h = h0)) as [->|Hne].
  - destruct (addToBucket_files m wd h0) as (b' & Hb' & Hv').
    by apply (fold_addToBucket_keeps _ _ _ _ b').
  - apply IH. apply elem_of_cons in Hh as [?|?]; done.
Qed.

Lemma hashNumber_elem (wd : word) (i : nat) :
  i < length wd → hash (editWord i wd) ∈ getAllWordHashNumbers wd.
Proof.
  intros Hi. unfold getAllWordHashNumbers. apply list_elem_of_fmap.
  exists i. split; [done|]. apply elem_of_seq. lia.
Qed.

Lemma indexWord_filed m wd : filed (indexWord m wd) wd.
Proof.
  intros i Hi. apply fold_addToBucket_files. by apply hashNumber_elem.
Qed.

Lemma indexWord_keeps m wd v : filed m v → filed (indexWord m wd) v.
Proof.
  intros Hv i Hi. destruct (Hv i Hi) as (b & Hb & Hin).
  by apply (fold_addToBucket_keeps _ _ _ _ b).
Qed.

Lemma initLoop_ok dict wl ws m m' :
  initLoop wl m ws = Ok m' →
  buckets_within dict m → (∀ v, v ∈ ws → v ∈ dict) →
  buckets_within dict m' ∧
  (∀ v, filed m v → filed m' v) ∧
  (∀ v, v ∈ ws → filed m' v ∧ length v = wl).
Proof.
  revert m. induction ws as [|wd ws IH]; intros m Hrun Hm Hsub; simpl in Hrun.
  - injection Hrun as <-. split_and!; [done | done |].
    intros v Hv. by apply elem_of_nil in Hv.
  - case_decide as Hlen; [done|].
    destruct (IH _ Hrun) as (Hw & Hkeep & Hnew).
    { apply fold_addToBucket_within; [done|]. apply Hsub. left. }
    { intros v Hv. apply Hsub. by right. }
    split_and!; [done | |].
    + intros v Hv. by apply Hkeep, indexWord_keeps.
    + intros v [->|Hv]%elem_of_cons; [|by apply Hnew].
      split; [|done]. apply Hkeep, indexWord_filed.
Qed.

Lemma initLoop_raise wl ws m e :
  initLoop wl m ws = Raise e → e = ValueError ∧ ∃ v, v ∈ ws ∧ length v ≠ wl.
Proof.
  revert m. induction ws as [|wd ws IH]; intros m Hrun; simpl in Hrun; [done|].
  case_decide as Hlen.
  - injection Hrun as <-. split; [done|]. exists wd. split; [left | done].
  - destruct (IH _ Hrun) as (-> & v & Hv & Hl). split; [done|].
    exists v. split; [by right | done].
Qed.

Lemma init_index dict od :
  OrganisedDictionary_init dict = Ok od → index_of dict od.
Proof.
  unfold OrganisedDictionary_init. destruct dict as [|first rest].
  - intros [= <-]. split_and!; simpl; [done | | |].
    + intros h b Hb. by rewrite lookup_empty in Hb.
    + intros v Hv. by apply elem_of_nil in Hv.
    + intros u v Hv. by apply elem_of_nil in Hv.
  - destruct (initLoop _ _ _) as [m|e] eqn:Hrun; simpl; [|done].
    intros [= <-]. simpl.
    destruct (initLoop_ok (first :: rest) _ _ _ _ Hrun) as (Hw & _ & Hnew).
    { intros h b Hb. by rewrite lookup_empty in Hb. }
    { done. }
    split_and!; simpl; [done | done | |].
    + intros v Hv. by apply Hnew.
    + intros u v Hu Hv. apply Hnew in Hu as [_ ->]. apply Hnew in Hv as [_ ->].
      done.
Qed.

Lemma collectBuckets_ok m hs acc r :
  collectBuckets m acc hs = Ok r → NoDup acc →
  NoDup r ∧
  ∀ v, v ∈ r ↔ v ∈ acc ∨ ∃ h b, h ∈ hs ∧ m !! h = Some b ∧ v ∈ b.
Proof.
  revert acc. induction hs as [|h hs IH]; intros acc Hrun Hnd; simpl in Hrun.
  - injection Hrun as <-. split; [done|]. intros v. split; [auto|].
    intros [?|(h & b & []%elem_of_nil & _)]. done.
  - destruct (m !! h) as [bucket|] eqn:Hb; [|done].
    destruct (IH _ Hrun) as [Hr Hin]; [by apply NoDup_set_update|].
    split; [done|]. intros v. rewrite Hin, elem_of_set_update. split.
    + intros [[?|?]|(h' & b & ? & ? & ?)]; [by left | |].
      * right. exists h, bucket. split_and!; [left | done | done].
      * right. exists h', b. split_and!; [by right | done | done].
    + intros [?|(h' & b & [->|?]%elem_of_cons & Hb' & ?)]; [by left; left | |].
      * left; right. congruence.
      * right. by exists h', b.
Qed.

Lemma collectBuckets_total m hs acc :
  (∀ h, h ∈ hs → is_Some (m !! h)) → ∃ r, collectBuckets m acc hs = Ok r.
Proof.
  revert acc. induction hs as [|h hs IH]; intros acc Hall; simpl; [eauto|].
  destruct (Hall h) as [b ->]; [left|]. apply IH. intros h' ?. apply Hall.
  by right.
Qed.

(** Two words one legal transformation apart share a masked variant. *)
Lemma legal_same_mask (wd v : word) :
  legalTransformation wd v = true →
  ∃ i, i < length wd ∧ editWord i wd = editWord i v.
Proof.
  rewrite legal_iff. intros (Hlen & _ & i & Hi & _ & Hrest).
  exists i. split; [done|]. unfold editWord. f_equal; [|f_equal].
  - apply list_eq. intros j. destruct (decide (j < i)) as [Hj|Hj].
    + rewrite !lookup_take_lt by done. apply Hrest; lia.
    + rewrite !lookup_take_ge by lia. done.
  - apply list_eq. intros j. rewrite !lookup_drop.
    destruct (decide (S i + j < length wd)) as [Hj|Hj].
    + apply Hrest; lia.
    + rewrite !lookup_ge_None_2; [done | lia | lia].
Qed.

Lemma getTransformableWords_ok dict od wd l :
  index_of dict od → getTransformableWords od wd = Ok l →
  NoDup l ∧ ∀ v, v ∈ l ↔ v ∈ dict ∧ legalTransformation wd v = true.
Proof.
  intros (Hws & Hwithin & Hfiled & _). unfold getTransformableWords.
  rewrite Hws. case_decide as Hwd; [|done].
  destruct (collectBuckets _ _ _) as [mw|e] eqn:Hcollect; simpl; [|done].
  apply collectBuckets_ok in Hcollect as [Hnd Hmw]; [|apply NoDup_nil_2].
  unfold set_remove. case_decide as Hin; simpl; [|done]. intros [= <-].
  split.
  - apply NoDup_filter. rewrite set_order_perm. by apply NoDup_filter.
  - intros v. rewrite list_elem_of_filter, set_order_perm,
      list_elem_of_filter, Hmw. split.
    + intros (Hlegal & _ & [[]%elem_of_nil|(h & b & _ & Hb & Hv)]).
      split; [|done]. by apply (Hwithin h b).
    + intros [Hv Hlegal]. split_and!; [done | |].
      * intros ->. by rewrite legal_irrefl in Hlegal.
      * right. destruct (legal_same_mask _ _ Hlegal) as (i & Hi & Hmask).
        destruct (Hfiled v Hv i) as (b & Hb & Hvb).
        { apply legal_length in Hlegal. lia. }
        exists (hash (editWord i wd)), b.
        split_and!; [by apply hashNumber_elem | by rewrite Hmask | done].
Qed.

Lemma getTransformableWords_total dict od wd :
  index_of dict od → wd ∈ dict → wd ≠ [] →
  ∃ l, getTransformableWords od wd = Ok l.
Proof.
  intros (Hws & Hwithin & Hfiled & _) Hwd Hne. unfold getTransformableWords.
  rewrite Hws. rewrite decide_True by done.
  destruct (collectBuckets_total (hashedWords od) (getAllWordHashNumbers wd) [])
    as [mw Hcollect].
  { intros h (i & -> & Hi%elem_of_seq)%list_elem_of_fmap.
    destruct (Hfiled wd Hwd i) as (b & -> & _); [lia | done]. }
  rewrite Hcollect. simpl.
  apply collectBuckets_ok in Hcollect as [_ Hmw]; [|apply NoDup_nil_2].
  unfold set_remove. rewrite decide_True; [simpl; eauto|].
  apply Hmw. right. destruct (Hfiled wd Hwd 0) as (b & Hb & Hvb).
  { destruct wd; [done | simpl; lia]. }
  exists (hash (editWord 0 wd)), b. split_and!; [|done|done].
  apply hashNumber_elem. destruct wd; [done | simpl; lia].
Qed.

Lemma initLoop_total wl ws m :
  (∀ v, v ∈ ws → length v = wl) → ∃ m', initLoop wl m ws = Ok m'.
Proof.
  revert m. induction ws as [|wd ws IH]; intros m Hall; simpl; [eauto|].
  rewrite decide_False; [|intros Hne; apply Hne, Hall; left].
  apply IH. intros v Hv. apply Hall. by right.
Qed.

Lemma init_total dict :
  (∀ u v, u ∈ dict → v ∈ dict → length u = length v) →
  ∃ od, OrganisedDictionary_init dict = Ok od.
Proof.
  intros Huni. unfold OrganisedDictionary_init.
  destruct dict as [|first rest]; [eauto|].
  destruct (initLoop_total (length first) (first :: rest) ∅) as [m ->];
    [|simpl; eauto].
  intros v Hv. apply Huni; [done | left].
Qed.

Lemma init_raise dict e :
  OrganisedDictionary_init dict = Raise e →
  e = ValueError ∧
  ∃ first v, head dict = Some first ∧ v ∈ dict ∧ length v ≠ length first.
Proof.
  unfold OrganisedDictionary_init. destruct dict as [|first rest]; [done|].
  destruct (initLoop _ _ _) as [m|e'] eqn:Hrun; simpl; [done|].
  intros [= ->]. apply initLoop_raise in Hrun as (-> & v & Hv & Hlen).
  split; [done|]. by exists first, v.
Qed.

End IndexProofs.

(** ** Ladders *)

Lemma chain_snoc (ws : list word) (y x : word) :
  last ws = Some y →
  chain (ws ++ [x]) ↔ chain ws ∧ legalTransformation y x = true.
Proof.
  induction ws as [|a ws IH]; [done|]. destruct ws as [|b ws].
  - intros [= ->]. simpl. tauto.
  - rewrite last_cons_cons. intros Hlast. specialize (IH Hlast).
    change (chain ((a :: b :: ws) ++ [x]))
      with (legalTransformation a b = true ∧ chain ((b :: ws) ++ [x])).
    change (chain (a :: b :: ws))
      with (legalTransformation a b = true ∧ chain (b :: ws)).
    tauto.
Qed.

Lemma ladder_single (dict : list word) (s : word) :
  s ∈ dict → ladder dict s s [s].
Proof.
  intros Hs. split_and!; simpl; [done | done | | done].
  by intros x ->%list_elem_of_singleton.
Qed.

Lemma ladder_snoc (dict ws : list word) (s e x : word) :
  ladder dict s e ws → legalTransformation e x = true → x ∈ dict →
  ladder dict s x (ws ++ [x]).
Proof.
  intros (Hhead & Hlast & Hin & Hchain) Hlegal Hx. split_and!.
  - destruct ws; [done | exact Hhead].
  - apply last_snoc.
  - intros y [?| ->%list_elem_of_singleton]%elem_of_app; auto.
  - by apply (chain_snoc ws e x).
Qed.

Lemma within_mono (dict : list word) (s x : word) (n m : nat) :
  within dict s n x → n ≤ m → within dict s m x.
Proof.
  intros Hw. revert m. induction Hw as [n Hs|n u v Hu IH Hlegal Hv]; intros m Hm.
  - by constructor.
  - destruct m as [|m]; [lia|]. apply (within_step _ _ _ u); [|done|done].
    apply IH. lia.
Qed.

Lemma within_zero (dict : list word) (s x : word) : within dict s 0 x → x = s.
Proof. by inversion 1. Qed.

Lemma within_dict (dict : list word) (s x : word) (n : nat) :
  within dict s n x → x ∈ dict.
Proof. by destruct 1. Qed.

Lemma ladder_within (dict ws : list word) (s e : word) :
  ladder dict s e ws → within dict s (length ws - 1) e.
Proof.
  revert e. induction ws as [|x ws IH] using rev_ind;
    intros e (Hhead & Hlast & Hin & Hchain); [done|].
  rewrite last_snoc in Hlast. injection Hlast as ->.
  destruct (last ws) as [y|] eqn:Hy.
  - apply (chain_snoc ws y e Hy) in Hchain as [Hchain Hlegal].
    assert (ws ≠ []) as Hne by (by intros ->).
    rewrite length_app. simpl.
    replace (length ws + 1 - 1) with (S (length ws - 1))
      by (destruct ws; [done | simpl; lia]).
    apply (within_step _ _ _ y); [|done|].
    + apply IH. split_and!; [by destruct ws | done | | done].
      intros z Hz. apply Hin, elem_of_app. by left.
    + apply Hin, elem_of_app. right. by apply list_elem_of_singleton.
  - apply last_None in Hy as ->. simpl in *. injection Hhead as ->.
    constructor. apply Hin. by apply list_elem_of_singleton.
Qed.

(** ** One path of one round *)

Lemma list_pop_spec (l rest : list word) (x : word) :
  list_pop l = Ok (rest, x) → l = rest ++ [x].
Proof.
  unfold list_pop. destruct (last l) as [y|] eqn:Hy; [|done].
  apply last_Some in Hy as [l' ->]. intros [= <- <-].
  rewrite length_app. simpl.
  replace (length l' + 1 - 1) with (length l') by lia.
  by rewrite take_app_length.
Qed.

Lemma list_pop_total (l : list word) :
  l ≠ [] → ∃ rest x, list_pop l = Ok (rest, x).
Proof.
  intros [y Hy]%last_is_Some. unfold list_pop. rewrite Hy. eauto.
Qed.

Lemma foldl_addWord (ws acc : list word) :
  foldl addWord {| words := acc |} ws = {| words := acc ++ ws |}.
Proof.
  revert acc. induction ws as [|x ws IH]; intros acc; simpl.
  - by rewrite app_nil_r.
  - unfold addWord at 2. simpl. rewrite IH. by rewrite <- app_assoc.
Qed.

Lemma makeCopy_id (p : SearchPath) : makeCopy p = p.
Proof. destruct p as [ws]. unfold makeCopy. simpl. apply foldl_addWord. Qed.

Lemma lastWord_spec (p : SearchPath) (e : word) :
  lastWord p = Ok e ↔ last (words p) = Some e.
Proof.
  unfold lastWord. destruct (last (words p)); split; congruence.
Qed.

Section PathProofs.
Context `{PyRuntime}.

Lemma extendPath_spec dict od target reached p ext :
  index_of dict od → extendPath od target reached p = Ok ext →
  ∃ e, last (words p) = Some e ∧ extension_spec dict target reached p e ext.
Proof.
  intros Hod. unfold extendPath.
  destruct (lastWord p) as [e|] eqn:He; simpl; [|done].
  apply lastWord_spec in He.
  destruct (getTransformableWords od e) as [nextWords|] eqn:Hnext; simpl; [|done].
  destruct (getTransformableWords_ok dict od e nextWords Hod Hnext) as [Hnd Hnw].
  set (valid := filter (λ wd, wd ∉ reached) nextWords).
  assert (NoDup valid) as Hvnd by (by apply NoDup_filter).
  assert (∀ v, v ∈ valid ↔
            v ∈ dict ∧ legalTransformation e v = true ∧ v ∉ reached) as Hvalid.
  { intros v. unfold valid. rewrite list_elem_of_filter, Hnw. tauto. }
  clearbody valid. intros Hrun. exists e. split; [done|].
  case_decide as Hempty.
  { injection Hrun as <-. intros v Hv Hlegal.
    destruct (decide (v ∈ reached)) as [|Hnr]; [done|].
    assert (v ∈ valid) as Hin by (by apply Hvalid).
    rewrite Hempty in Hin. by apply elem_of_nil in Hin. }
  case_decide as Htarget.
  { injection Hrun as <-. apply Hvalid in Htarget. simpl. tauto. }
  destruct (list_pop valid) as [[rest wd]|] eqn:Hpop; simpl in Hrun; [|done].
  injection Hrun as <-. apply list_pop_spec in Hpop. simpl.
  rewrite <- Hpop. split_and!; [done | done | done | done |].
  intros q. rewrite makeCopy_id, elem_of_cons, list_elem_of_fmap.
  setoid_rewrite Hpop. setoid_rewrite elem_of_app.
  setoid_rewrite list_elem_of_singleton. split.
  - intros [->|(v & -> & Hv)]; eauto.
  - intros (v & [Hv| ->] & ->); eauto.
Qed.

Lemma extendPath_total dict od target reached p e :
  index_of dict od → last (words p) = Some e → e ∈ dict → e ≠ [] →
  ∃ ext, extendPath od target reached p = Ok ext.
Proof.
  intros Hod He Hin Hne. unfold extendPath.
  apply lastWord_spec in He. rewrite He. simpl.
  destruct (getTransformableWords_total dict od e Hod Hin Hne) as [nw ->].
  simpl. case_decide as Hempty; [eauto|]. case_decide; [eauto|].
  destruct (list_pop_total _ Hempty) as (rest & x & ->). simpl. eauto.
Qed.

Lemma good_path_addWord dict s r p e v :
  good_path dict s r p → last (words p) = Some e →
  legalTransformation e v = true → v ∈ dict → v ∉ words p →
  good_path dict s (S r) (addWord p v) ∧ last (words (addWord p v)) = Some v.
Proof.
  intros ([e' Hladder] & Hlen & Hnd) He Hlegal Hv Hfresh.
  assert (e' = e) as ->.
  { destruct Hladder as (_ & Hlast & _). congruence. }
  unfold addWord. simpl. split; [|apply last_snoc]. split_and!.
  - exists v. by apply (ladder_snoc _ _ _ e).
  - simpl. rewrite length_app. simpl. lia.
  - simpl. apply NoDup_app. split_and!; [done | | apply NoDup_singleton].
    intros x Hx ->%list_elem_of_singleton. done.
Qed.

Lemma extendLoop_inv dict od s t r reached0 :
  index_of dict od →
  ∀ paths acc cur acc' cur' found,
    (∀ p, p ∈ paths →
       good_path dict s r p ∧ ∀ x, x ∈ words p → x ∈ cur) →
    loop_inv dict s t r reached0 acc cur →
    extendLoop od t paths acc cur = Ok (acc', cur', found) →
    (∀ x, x ∈ cur → x ∈ cur') ∧
    match found with
    | None =>
        loop_inv dict s t r reached0 acc' cur' ∧
        ∀ p e, p ∈ paths → last (words p) = Some e →
          ∀ v, v ∈ dict → legalTransformation e v = true → v ∈ cur'
    | Some q =>
        good_path dict s (S r) q ∧ last (words q) = Some t ∧ t ∉ cur'
    end.
Proof.
  intros Hod. induction paths as [|p rest IH];
    intros acc cur acc' cur' found Hpaths Hinv Hrun; simpl in Hrun.
  { injection Hrun as <- <- <-. split; [done|]. split; [done|].
    intros p e []%elem_of_nil. }
  destruct (extendPath od t cur p) as [ext|] eqn:Hext; simpl in Hrun; [|done].
  destruct (extendPath_spec _ _ _ _ _ _ Hod Hext) as (e & He & Hspec).
  destruct (Hpaths p) as [Hgood Hsub]; [left|].
  assert (∀ p', p' ∈ rest → p' ∈ p :: rest) as Hrest by (intros; by right).
  destruct ext as [|q|extended claimed]; simpl in Hspec.
  - (* the path is dropped *)
    destruct (IH _ _ _ _ _ (λ p' Hp', Hpaths p' (Hrest p' Hp')) Hinv Hrun)
      as [Hgrow Hres].
    split; [done|]. destruct found as [q|]; [done|].
    destruct Hres as [Hinv' Hdone]. split; [done|].
    intros p' e' [->|Hp']%elem_of_cons He' v Hv Hlegal; [|by eapply Hdone].
    assert (e' = e) as -> by congruence. by apply Hgrow, Hspec.
  - (* the path wins *)
    injection Hrun as <- <- <-. split; [done|].
    destruct Hspec as (-> & Ht & Hlegal & Hfresh).
    destruct (good_path_addWord dict s r p e t) as [Hq Hlast]; try done.
    intros Hin. by apply Hfresh, Hsub.
  - (* the path branches *)
    destruct Hspec as (Hnd & Hne & Htarget & Hclaimed & Hextended).
    assert (loop_inv dict s t r reached0 (acc ++ extended) (cur ++ claimed))
      as Hinv1.
    { destruct Hinv as [Hp Hf Ht]. split.
      - intros q [Hq|Hq]%elem_of_app.
        + destruct (Hp q Hq) as [Hg Hs]. split; [done|].
          intros x Hx. apply elem_of_app. left. by apply Hs.
        + apply Hextended in Hq as (v & Hv & ->).
          apply Hclaimed in Hv as Hv'. destruct Hv' as (Hvd & Hlegal & Hfresh).
          destruct (good_path_addWord dict s r p e v) as [Hq Hlast]; try done.
          { intros Hin. by apply Hfresh, Hsub. }
          split; [done|]. unfold addWord. simpl.
          intros x [Hx| ->%list_elem_of_singleton]%elem_of_app;
            apply elem_of_app; [left; by apply Hsub | by right].
      - intros x [Hx|Hx]%elem_of_app.
        + destruct (Hf x Hx) as [?|(q & Hq & Hlast)]; [by left|].
          right. exists q. split; [|done]. apply elem_of_app. by left.
        + right. exists (addWord p x). split.
          * apply elem_of_app. right. apply Hextended. eauto.
          * unfold addWord. simpl. apply last_snoc.
      - intros [Hx|Hx]%elem_of_app; [by apply Ht | done]. }
    assert (∀ p', p' ∈ rest →
              good_path dict s r p' ∧ ∀ x, x ∈ words p' → x ∈ cur ++ claimed)
      as Hpaths1.
    { intros p' Hp'. destruct (Hpaths p' (Hrest p' Hp')) as [Hg Hs].
      split; [done|]. intros x Hx. apply elem_of_app. left. by apply Hs. }
    destruct (IH _ _ _ _ _ Hpaths1 Hinv1 Hrun) as [Hgrow Hres].
    split; [intros x Hx; apply Hgrow, elem_of_app; by left|].
    destruct found as [q|]; [done|].
    destruct Hres as [Hinv' Hdone]. split; [done|].
    intros p' e' [->|Hp']%elem_of_cons He' v Hv Hlegal; [|by eapply Hdone].
    assert (e' = e) as -> by congruence.
    apply Hgrow, elem_of_app.
    destruct (decide (v ∈ cur)) as [|Hnc]; [by left|].
    right. by apply Hclaimed.
Qed.

Lemma extendLoop_total dict od t paths acc cur :
  index_of dict od → (∀ x, x ∈ dict → x ≠ []) →
  (∀ p, p ∈ paths → ∃ e, last (words p) = Some e ∧ e ∈ dict) →
  ∃ res, extendLoop od t paths acc cur = Ok res.
Proof.
  intros Hod Hne. revert acc cur.
  induction paths as [|p rest IH]; intros acc cur Hpaths; simpl; [eauto|].
  destruct (Hpaths p) as (e & He & Hin); [left|].
  destruct (extendPath_total dict od t cur p e Hod He Hin (Hne e Hin))
    as [ext ->]. simpl.
  assert (∀ p', p' ∈ rest → ∃ e, last (words p') = Some e ∧ e ∈ dict)
    as Hrest by (intros p' Hp'; apply Hpaths; by right).
  destruct ext; [by apply IH | eauto | by apply IH].
Qed.

(** A whole round that does not find the target takes the invariant of
    round [r] to that of round [r + 1]. *)
Lemma round_inv_next dict od s t r paths reached acc' cur' :
  index_of dict od →
  round_inv dict s t r paths reached →
  extendLoop od t paths [] reached = Ok (acc', cur', None) →
  round_inv dict s t (S r) acc' cur'.
Proof.
  intros Hod [Hp Hc Hf Ht] Hrun.
  destruct (extendLoop_inv dict od s t r reached Hod
              paths [] reached acc' cur' None) as (Hgrow & Hinv & Hdone);
    [done | | done |].
  { split; [by intros q []%elem_of_nil | by left | done]. }
  destruct Hinv as [Hp' Hf' Ht']. split; [done | | |].
  - intros x Hw. inversion Hw as [n Hs|n u v Hu Hlegal Hv]; subst.
    + apply Hgrow, Hc. by constructor.
    + destruct (Hf u (Hc u Hu)) as [(r' & Hr' & Hw')|(p & Hin & Hlast)].
      * apply Hgrow, Hc. apply (within_mono _ _ _ (S r')); [|lia].
        by apply (within_step _ _ _ u).
      * by apply (Hdone p u).
  - intros x Hx. destruct (Hf' x Hx) as [Hold|?]; [|by right].
    destruct (Hf x Hold) as [(r' & Hr' & Hw')|(p & Hin & Hlast)].
    + left. exists r'. split; [lia | done].
    + left. exists r. split; [lia|].
      destruct (Hp p Hin) as [([e Hladder] & Hlen & _) _].
      assert (e = x) as ->.
      { destruct Hladder as (_ & Hl & _). congruence. }
      apply ladder_within in Hladder. rewrite Hlen in Hladder.
      by replace (S r - 1) with r in Hladder by lia.
  - intros Hst Hin. by apply (Ht Hst), Ht'.
Qed.

(** With no path left, the reached words are closed under legal
    transformations within the dictionary. *)
Lemma exhausted_closed dict s t r reached :
  round_inv dict s t r [] reached →
  ∀ n x, within dict s n x → x ∈ reached.
Proof.
  intros [_ Hc Hf _] n x Hw.
  induction Hw as [n Hs|n u v Hu IH Hlegal Hv]; [apply Hc; by constructor|].
  destruct (Hf u IH) as [(r' & Hr' & Hw')|(p & []%elem_of_nil & _)].
  apply Hc. apply (within_mono _ _ _ (S r')); [|lia].
  by apply (within_step _ _ _ u).
Qed.

Lemma extendPaths_step dict s t r dd dd' :
  dd_inv dict s t r dd → extendPaths dd = Ok dd' →
  (finished dd' = false ∧ dd_inv dict s t (S r) dd') ∨
  search_result dict s t dd'.
Proof.
  intros (Hod & Htarget & Hfin & Hnone & Hne & Hinv). unfold extendPaths.
  destruct (extendLoop _ _ _ _ _) as [[[acc' cur'] found]|] eqn:Hrun;
    simpl; [|done].
  intros [= <-]. rewrite Htarget in Hrun.
  destruct found as [q|].
  - right. split; [done|]. simpl.
    destruct (extendLoop_inv dict (organisedDictionary dd) s t r
                (reachedWords dd) Hod (searchPaths dd) [] (reachedWords dd)
                acc' cur' (Some q)) as (Hgrow & Hq & Hlast & Hfresh);
      [apply Hinv | | done |].
    { split; [by intros q' []%elem_of_nil | by left | done]. }
    exists r. split_and!; [done | done |].
    intros Hw. by apply Hfresh, Hgrow, Hinv.
  - pose proof (round_inv_next _ _ _ _ _ _ _ _ _ Hod Hinv Hrun) as Hinv'.
    destruct acc' as [|p0 acc'].
    + right. split; [done|]. simpl. rewrite Hnone.
      intros Hst n Hw. apply (inv_target _ _ _ _ _ _ Hinv' Hst).
      by apply (exhausted_closed dict s t (S r) cur' Hinv' n).
    + left. split; [done|]. by split_and!.
Qed.

Lemma searchLoop_sound dict s t n :
  ∀ r dd dd', dd_inv dict s t r dd → searchLoop n dd = Some (Ok dd') →
  search_result dict s t dd'.
Proof.
  induction n as [|n IH]; intros r dd dd' Hinv; simpl;
    pose proof Hinv as (Hod & Htarget & Hfin & Hrest); rewrite Hfin; [done|].
  destruct (extendPaths dd) as [dd1|] eqn:Hstep; [|done].
  destruct (extendPaths_step dict s t r dd dd1 Hinv Hstep)
    as [[Hfin1 Hinv1]|Hres]; [by apply (IH (S r))|].
  intros Hrun. destruct n; simpl in Hrun; destruct Hres as [Hfin1 Hres];
    rewrite Hfin1 in Hrun; injection Hrun as <-; by split.
Qed.

(** A path of round [r] has [r + 1] distinct dictionary words. *)
Lemma round_bound dict s t r dd :
  dd_inv dict s t r dd → r < length dict.
Proof.
  intros (_ & _ & _ & _ & Hne & [Hp _ _ _]).
  destruct (searchPaths dd) as [|p ps]; [done|].
  destruct (Hp p) as [([e (_ & _ & Hin & _)] & Hlen & Hnd) _]; [left|].
  apply NoDup_submseteq in Hin; [|done].
  apply submseteq_length in Hin. lia.
Qed.

Lemma extendPaths_total dict s t r dd :
  dd_inv dict s t r dd → (∀ x, x ∈ dict → x ≠ []) →
  ∃ dd', extendPaths dd = Ok dd'.
Proof.
  intros (Hod & Htarget & Hfin & Hnone & Hne & [Hp _ _ _]) Hwords.
  unfold extendPaths.
  destruct (extendLoop_total dict (organisedDictionary dd) (targetWord dd)
              (searchPaths dd) [] (reachedWords dd) Hod Hwords)
    as [[[acc' cur'] found] ->]; [|simpl; eauto].
  intros p Hin. destruct (Hp p Hin) as [([e Hl] & _) _].
  exists e. destruct Hl as (_ & Hlast & Hsub & _). split; [done|].
  by apply Hsub, last_Some_elem_of.
Qed.

(** The loop stops within [length dict - r] further rounds, and without an
    exception when no dictionary word is empty. *)
Lemma searchLoop_terminates dict s t n :
  ∀ r dd, dd_inv dict s t r dd → length dict ≤ r + n →
  ∃ res, searchLoop n dd = Some res ∧
         ((∀ x, x ∈ dict → x ≠ []) → ∃ dd', res = Ok dd').
Proof.
  induction n as [|n IH]; intros r dd Hinv Hn.
  { apply round_bound in Hinv. lia. }
  pose proof Hinv as (Hod & Htarget & Hfin & Hrest).
  simpl. rewrite Hfin.
  destruct (extendPaths dd) as [dd1|e] eqn:Hstep.
  - destruct (extendPaths_step dict s t r dd dd1 Hinv Hstep)
      as [[Hfin1 Hinv1]|[Hfin1 Hres]].
    + apply (IH (S r)); [done | lia].
    + exists (Ok dd1). split; [|eauto].
      destruct n; simpl; by rewrite Hfin1.
  - exists (Raise e). split; [done|]. intros Hwords.
    destruct (extendPaths_total dict s t r dd Hinv Hwords) as [dd' Hok].
    congruence.
Qed.

Lemma init_dash dict dd :
  DictionaryDash_init dict = Ok dd →
  dictionary dd = dict ∧ index_of dict (organisedDictionary dd).
Proof.
  unfold DictionaryDash_init.
  destruct (OrganisedDictionary_init dict) as [od|] eqn:Hod; simpl; [|done].
  intros [= <-]. simpl. split; [done|]. by apply init_index.
Qed.

Lemma startQuery_inv dict dd s t :
  index_of dict (organisedDictionary dd) → s ∈ dict →
  dd_inv dict s t 0 (startQuery dd s t).
Proof.
  intros Hod Hs. split_and!; simpl; [done | done | done | done | done |].
  split.
  - intros p ->%list_elem_of_singleton. simpl. split; [|done].
    split_and!; simpl; [|done|apply NoDup_singleton].
    exists s. by apply ladder_single.
  - intros x ->%within_zero. left.
  - intros x ->%list_elem_of_singleton. right.
    eexists. split; [left | done].
  - intros Hst ->%list_elem_of_singleton. done.
Qed.

(** A query from a word outside the dictionary fails in its first round. *)
Lemma query_outside dict dd s t n :
  index_of dict (organisedDictionary dd) → s ∉ dict →
  searchLoop (S n) (startQuery dd s t) = Some (Raise AssertionError).
Proof.
  intros (Hws & _) Hs. simpl. unfold extendPaths. simpl.
  unfold extendPath. simpl. unfold getTransformableWords.
  rewrite Hws, decide_False by done. done.
Qed.

Lemma searchLoop_mono n :
  ∀ m dd res, searchLoop n dd = Some res → n ≤ m → searchLoop m dd = Some res.
Proof.
  induction n as [|n IH]; intros m dd res; simpl.
  - destruct (finished dd) eqn:Hfin; [|done]. intros Hres _.
    destruct m; simpl; by rewrite Hfin.
  - destruct (finished dd) eqn:Hfin.
    + intros Hres _. destruct m; simpl; by rewrite Hfin.
    + intros Hres Hm. destruct m as [|m]; [lia|]. simpl. rewrite Hfin.
      destruct (extendPaths dd); [|done]. apply IH; [done | lia].
Qed.

Lemma query_sound dict dd s t rounds dd' res :
  DictionaryDash_init dict = Ok dd →
  getShortestTransformationSequence rounds dd s t = Some (Ok (dd', res)) →
  s ∈ dict ∧ search_result dict s t dd' ∧ res = successfulPath dd'.
Proof.
  intros [_ Hod]%init_dash. unfold getShortestTransformationSequence.
  destruct (searchLoop rounds (startQuery dd s t)) as [[dd1|]|] eqn:Hrun;
    [|done|done].
  intros [= <- <-]. destruct (decide (s ∈ dict)) as [Hs|Hs].
  - split_and!; [done | | done].
    apply (searchLoop_sound dict s t rounds 0 (startQuery dd s t)); [|done].
    by apply startQuery_inv.
  - destruct rounds as [|n]; [done|].
    by rewrite (query_outside dict) in Hrun.
Qed.

Lemma query_total dict dd s t rounds :
  DictionaryDash_init dict = Ok dd → s ∈ dict → length dict ≤ rounds →
  ∃ res, getShortestTransformationSequence rounds dd s t = Some res ∧
         ((∀ x, x ∈ dict → x ≠ []) →
          ∃ dd', res = Ok (dd', successfulPath dd') ∧
                 search_result dict s t dd').
Proof.
  intros [_ Hod]%init_dash Hs Hn.
  pose proof (startQuery_inv dict dd s t Hod Hs) as Hinv.
  destruct (searchLoop_terminates dict s t rounds 0 _ Hinv)
    as (res & Hrun & Hok); [lia|].
  unfold getShortestTransformationSequence. rewrite Hrun.
  destruct res as [dd1|e].
  - eexists. split; [done|]. intros _. exists dd1. split; [done|].
    by apply (searchLoop_sound dict s t rounds 0 (startQuery dd s t)).
  - eexists. split; [done|]. intros Hwords.
    destruct (Hok Hwords) as [? ?]. done.
Qed.

Lemma within_length dict s n x : within dict s n x → length x = length s.
Proof.
  induction 1 as [|n u v Hu IH Hlegal Hv]; [done|].
  apply legal_length in Hlegal. congruence.
Qed.

Lemma chain_lookup (ws : list word) :
  chain ws →
  ∀ i a b, ws !! i = Some a → ws !! S i = Some b →
           legalTransformation a b = true.
Proof.
  induction ws as [|x ws IH]; [done|]. destruct ws as [|y ws].
  - intros _ [|i] a b; done.
  - intros [Hxy Hrest] [|i] a b.
    + by intros [= <-] [= <-].
    + intros Ha Hb. by apply (IH Hrest i).
Qed.

End PathProofs.

(** ** The entry point *)

Lemma augment_start (s t : word) (dict : list word) : s ∈ augment s t dict.
Proof.
  unfold augment. repeat case_decide; rewrite ?elem_of_app;
    rewrite ?list_elem_of_singleton; auto.
Qed.

Lemma good_path_ladder dict s t r q :
  good_path dict s r q → last (words q) = Some t → ladder dict s t (words q).
Proof.
  intros ([e Hl] & _ & _) Hlast. assert (e = t) as ->; [|done].
  destruct Hl as (_ & He & _). congruence.
Qed.

Section EntryProofs.
Context `{PyRuntime}.

Lemma lengthOfShortestTransform_sound rounds s t dict n :
  snd (lengthOfShortestTransform rounds s t dict) = Some (Ok n) →
  ∃ dd', search_result (augment s t dict) s t dd' ∧ n = answer dd'.
Proof.
  unfold lengthOfShortestTransform. simpl.
  destruct (DictionaryDash_init (augment s t dict)) as [dd|] eqn:Hinit; [|done].
  destruct (getShortestTransformationSequence rounds dd s t)
    as [[[dd' res]|]|] eqn:Hrun; [|done|done].
  destruct (query_sound _ _ _ _ _ _ _ Hinit Hrun) as (_ & Hres & ->).
  intros Hn. exists dd'. split; [done|]. unfold answer.
  destruct (successfulPath dd'); congruence.
Qed.

Lemma lengthOfShortestTransform_total rounds s t dict :
  (∀ x, x ∈ augment s t dict → length x = length s) → s ≠ [] →
  length (augment s t dict) ≤ rounds →
  ∃ n, snd (lengthOfShortestTransform rounds s t dict) = Some (Ok n).
Proof.
  intros Huni Hne Hrounds. unfold lengthOfShortestTransform. simpl.
  destruct (init_total (augment s t dict)) as [od Hod].
  { intros u v Hu Hv. rewrite (Huni u), (Huni v); done. }
  unfold DictionaryDash_init at 1. rewrite Hod. simpl.
  set (dd := {| dictionary := augment s t dict; organisedDictionary := od;
                reachedWords := []; searchPaths := []; targetWord := [];
                successfulPath := None; finished := false |}).
  assert (DictionaryDash_init (augment s t dict) = Ok dd) as Hinit.
  { unfold DictionaryDash_init. by rewrite Hod. }
  destruct (query_total _ _ s t rounds Hinit (augment_start s t dict) Hrounds)
    as (res & -> & Hok).
  destruct Hok as (dd' & -> & _).
  { intros x Hx ->. apply Huni in Hx. destruct s; done. }
  destruct (successfulPath dd'); eauto.
Qed.

Lemma answer_found dict s t dd' :
  search_result dict s t dd' → answer dd' ≠ (-1)%Z →
  ∃ q, successfulPath dd' = Some q ∧ ladder dict s t (words q) ∧
       answer dd' = (Z.of_nat (length (words q)) - 1)%Z ∧
       ∀ ws, ladder dict s t ws → (answer dd' ≤ Z.of_nat (length ws) - 1)%Z.
Proof.
  intros [_ Hres]. unfold answer.
  destruct (successfulPath dd') as [q|]; [intros _ | done].
  destruct Hres as (r & Hgood & Hlast & Hfar). exists q.
  split_and!; [done | by apply (good_path_ladder _ _ _ (S r)) | done |].
  intros ws Hws%ladder_within. unfold numTransformations.
  destruct Hgood as (_ & -> & _).
  destruct (decide (length ws - 1 ≤ r)) as [Hle|Hgt]; [|lia].
  destruct Hfar. by apply (within_mono _ _ _ (length ws - 1)).
Qed.

Lemma answer_minus_one dict s t dd' :
  search_result dict s t dd' → s ≠ t →
  answer dd' = (-1)%Z ↔ ∀ ws, ¬ ladder dict s t ws.
Proof.
  intros [_ Hres] Hst. unfold answer.
  destruct (successfulPath dd') as [q|].
  - destruct Hres as (r & Hgood & Hlast & _). split.
    + unfold numTransformations. destruct Hgood as (_ & -> & _). lia.
    + intros Hno. destruct (Hno (words q)).
      by apply (good_path_ladder _ _ _ (S r)).
  - split; [|done]. intros _ ws Hws%ladder_within. by apply (Hres Hst) in Hws.
Qed.

End EntryProofs.

(** ** The examples of the specification *)

Lemma six_words_length : ∀ x, x ∈ six_words → length x = 3.
Proof. apply Forall_forall. repeat constructor. Qed.

Lemma six_words_dog : within six_words hot 2 dog.
Proof.
  apply (within_step _ _ _ dot); [|reflexivity|compute_done].
  apply (within_step _ _ _ hot); [|reflexivity|compute_done].
  constructor. compute_done.
Qed.

Lemma hot_xyz_apart (n : nat) (x : word) :
  within [hot; dot; dog; xyz] hot n x → x ∈ three_words.
Proof.
  induction 1 as [|n u v Hu IH Hlegal Hv]; [compute_done|].
  apply elem_of_cons in Hv as [->|Hv]; [compute_done|].
  apply elem_of_cons in Hv as [->|Hv]; [compute_done|].
  apply elem_of_cons in Hv as [->|Hv]; [compute_done|].
  apply list_elem_of_singleton in Hv as ->.
  repeat (apply elem_of_cons in IH as [->|IH]; [discriminate Hlegal|]).
  by apply elem_of_nil in IH.
Qed.

(** * The specification *)

Section Specification.
Context `{PyRuntime}.

(** C7.  For a dictionary from which the index was built and a word of that
    dictionary, every word that [getTransformableWords] returns is in the
    dictionary, has the length of the query word, differs from it at exactly
    one position and is not the query word; and the lookup does return for
    every such word but the empty one. *)
Theorem getTransformableWords_members (dict : list word)
    (od : OrganisedDictionary) (wd : word) :
  OrganisedDictionary_init dict = Ok od → wd ∈ dict →
  (wd ≠ [] → ∃ l, getTransformableWords od wd = Ok l) ∧
  (∀ l, getTransformableWords od wd = Ok l →
     ∀ v, v ∈ l →
       v ∈ dict ∧ length v = length wd ∧ differ_in_exactly_one wd v ∧ v ≠ wd).
Proof.
  intros Hod%init_index Hwd. split.
  { intros Hne. by apply (getTransformableWords_total dict). }
  intros l Hrun v Hv.
  destruct (getTransformableWords_ok dict od wd l Hod Hrun) as [_ Hl].
  apply Hl in Hv as [Hin Hlegal]. pose proof Hlegal as Hiff.
  apply legal_iff in Hiff as (Hlen & _ & Hdiff).
  split_and!; [done | done | done |].
  intros ->. by rewrite legal_irrefl in Hlegal.
Qed.

(** C8.  Lookup is reciprocal: when B is among the words returned for A,
    the lookup of B returns and A is among its words. *)
Theorem getTransformableWords_reciprocal (dict : list word)
    (od : OrganisedDictionary) (A B : word) (lA : list word) :
  OrganisedDictionary_init dict = Ok od → A ∈ dict → B ∈ dict →
  getTransformableWords od A = Ok lA → B ∈ lA →
  ∃ lB, getTransformableWords od B = Ok lB ∧ A ∈ lB.
Proof.
  intros Hod%init_index HA HB Hrun Hin.
  destruct (getTransformableWords_ok dict od A lA Hod Hrun) as [_ HlA].
  apply HlA in Hin as [_ Hlegal]. apply legal_sym in Hlegal.
  destruct (getTransformableWords_total dict od B Hod HB) as [lB HlB].
  { by apply (legal_nonempty B A). }
  exists lB. split; [done|].
  by apply (getTransformableWords_ok dict od B lB Hod HlB).
Qed.

(** C9.  Building the index from a non-empty dictionary raises exactly when
    some word has a length other than that of the first word; the exception
    is [ValueError], and then no index is returned. *)
Theorem OrganisedDictionary_init_raises (first : word) (rest : list word) :
  ((∃ e, OrganisedDictionary_init (first :: rest) = Raise e) ↔
   (∃ v, v ∈ first :: rest ∧ length v ≠ length first)) ∧
  (∀ e, OrganisedDictionary_init (first :: rest) = Raise e → e = ValueError) ∧
  ((∃ v, v ∈ first :: rest ∧ length v ≠ length first) →
   ∀ od, OrganisedDictionary_init (first :: rest) ≠ Ok od).
Proof.
  assert ((∃ v, v ∈ first :: rest ∧ length v ≠ length first) →
          ∀ od, OrganisedDictionary_init (first :: rest) ≠ Ok od) as Hno.
  { intros (v & Hv & Hlen) od Hod%init_index.
    destruct Hod as (_ & _ & _ & Huni). apply Hlen, Huni; [done | left]. }
  split_and!; [split | | done].
  - intros [e (_ & f & v & [= <-] & Hv & Hlen)%init_raise]. eauto.
  - intros Hbad.
    destruct (OrganisedDictionary_init (first :: rest)) as [od|e] eqn:Hrun;
      [by destruct (Hno Hbad od) | eauto].
  - intros e [-> _]%init_raise. done.
Qed.

(** C10.  [lengthOfShortestTransform] leaves the caller's list as the old
    list followed by the start word when it was missing and then by the end
    word when it was missing still: the old words stay, in their order, and
    nothing else is added or removed, whatever the call returns or raises. *)
Theorem lengthOfShortestTransform_dictionary (rounds : nat)
    (startWord endWord : word) (dict : list word) :
  fst (lengthOfShortestTransform rounds startWord endWord dict) =
    dict ++ (if decide (startWord ∈ dict) then [] else [startWord])
         ++ (if decide (endWord ∈ dict ∨ endWord = startWord) then []
             else [endWord]).
Proof.
  unfold lengthOfShortestTransform, augment. simpl.
  destruct (decide (startWord ∈ dict)) as [Hs|Hs]; simpl.
  - destruct (decide (endWord ∈ dict)) as [Ht|Ht].
    + rewrite decide_True by auto. by rewrite app_nil_r.
    + destruct (decide (endWord ∈ dict ∨ endWord = startWord))
        as [[?| ->]|Hno]; done.
  - destruct (decide (endWord ∈ dict ++ [startWord])) as [Ht|Ht].
    + rewrite decide_True; [done|].
      apply elem_of_app in Ht as [?| ->%list_elem_of_singleton]; auto.
    + rewrite decide_False; [by rewrite <- app_assoc|].
      intros [?| ->]; apply Ht, elem_of_app; [by left|].
      right. by apply list_elem_of_singleton.
Qed.

(** C2.  A path that [getShortestTransformationSequence] returns is not
    empty, begins with the start word, ends with the end word, and each of
    its words is a legal transformation of the one before; its words are
    dictionary words. *)
Theorem returned_path_is_ladder (dict : list word) (dd dd' : DictionaryDash)
    (startWord endWord : word) (rounds : nat) (p : SearchPath) :
  DictionaryDash_init dict = Ok dd →
  getShortestTransformationSequence rounds dd startWord endWord
    = Some (Ok (dd', Some p)) →
  words p ≠ [] ∧
  head (words p) = Some startWord ∧
  last (words p) = Some endWord ∧
  (∀ i a b, words p !! i = Some a → words p !! S i = Some b →
            legalTransformation a b = true) ∧
  (∀ x, x ∈ words p → x ∈ dict).
Proof.
  intros Hinit Hrun.
  destruct (query_sound _ _ _ _ _ _ _ Hinit Hrun) as (_ & [_ Hres] & Hp).
  rewrite <- Hp in Hres. destruct Hres as (r & Hgood & Hlast & _).
  destruct (good_path_ladder _ _ _ _ _ Hgood Hlast) as (Hh & _ & Hin & Hc).
  split_and!; [by destruct (words p) | done | done | | done].
  by apply chain_lookup.
Qed.

(** C1.  A path that [getShortestTransformationSequence] returns has no more
    transformations than any ladder from the start word to the end word
    through the dictionary; on the six words hot, dot, dog, lot, log, cog the
    search from hot to dog returns a path of two transformations. *)
Theorem returned_path_is_shortest :
  (∀ (dict : list word) (dd dd' : DictionaryDash) (startWord endWord : word)
     (rounds : nat) (p : SearchPath),
     DictionaryDash_init dict = Ok dd →
     getShortestTransformationSequence rounds dd startWord endWord
       = Some (Ok (dd', Some p)) →
     ∀ ws, ladder dict startWord endWord ws →
           (numTransformations p ≤ Z.of_nat (length ws) - 1)%Z) ∧
  (∃ dd dd' p,
     DictionaryDash_init six_words = Ok dd ∧
     getShortestTransformationSequence 6 dd hot dog = Some (Ok (dd', Some p)) ∧
     numTransformations p = 2%Z).
Proof.
  split.
  - intros dict dd dd' s t rounds p Hinit Hrun ws Hws.
    destruct (query_sound _ _ _ _ _ _ _ Hinit Hrun) as (_ & [_ Hres] & Hp).
    rewrite <- Hp in Hres. destruct Hres as (r & (_ & Hlen & _) & _ & Hfar).
    apply ladder_within in Hws. unfold numTransformations. rewrite Hlen.
    destruct (decide (length ws - 1 ≤ r)) as [Hle|Hgt]; [|lia].
    destruct Hfar. by apply (within_mono _ _ _ (length ws - 1)).
  - destruct (init_total six_words) as [od Hod].
    { intros u v Hu Hv. by rewrite !six_words_length. }
    assert (∃ dd, DictionaryDash_init six_words = Ok dd) as [dd Hinit].
    { unfold DictionaryDash_init. rewrite Hod. simpl. eauto. }
    destruct (query_total six_words dd hot dog 6 Hinit) as (res & Hrun & Hok);
      [compute_done | done |].
    destruct Hok as (dd' & -> & [_ Hres]).
    { intros x Hx%six_words_length ->. done. }
    destruct (successfulPath dd') as [q|] eqn:Hq.
    + exists dd, dd', q. split_and!; [done | done |].
      destruct Hres as (r & (Hl & Hlen & _) & Hlast & Hfar).
      unfold numTransformations. rewrite Hlen.
      destruct r as [|[|r]]; [| lia |].
      * destruct Hl as [e (Hh & _ & _ & Hc)].
        destruct (words q) as [|a [|b [|c l]]]; try done.
        simpl in Hh, Hlast, Hc. injection Hh as ->. injection Hlast as ->.
        by destruct Hc.
      * destruct Hfar. apply (within_mono _ _ _ 2); [|lia].
        apply six_words_dog.
    + destruct (Hres ltac:(done) 2). apply six_words_dog.
Qed.

(** C5, amended.  The search loop stops on every input, within
    [length dict] rounds on a dictionary that is not empty.  For a start
    word of the dictionary that is not the empty word and a target that no
    ladder reaches, the search is exhausted after at most [length dict]
    rounds and returns no path.  A start word outside the dictionary stops
    the first round with the failed assertion of the lookup. *)
Theorem search_terminates (dict : list word) (dd : DictionaryDash)
    (startWord endWord : word) :
  DictionaryDash_init dict = Ok dd →
  (∀ rounds, length dict ≤ rounds → 1 ≤ rounds →
     ∃ res, getShortestTransformationSequence rounds dd startWord endWord
            = Some res) ∧
  (startWord ∈ dict → startWord ≠ [] →
   unreachable_exhausts dict dd startWord endWord ∧
   ((∀ ws, ¬ ladder dict startWord endWord ws) →
    ∃ dd', getShortestTransformationSequence (length dict) dd
             startWord endWord = Some (Ok (dd', None)) ∧
           searchState dd' = Exhausted)) ∧
  (startWord ∉ dict →
   ∀ rounds, getShortestTransformationSequence (S rounds) dd
               startWord endWord = Some (Raise AssertionError)).
Proof.
  intros Hinit. split_and!.
  - intros rounds Hlen Hpos. destruct (decide (startWord ∈ dict)) as [Hs|Hs].
    + destruct (query_total dict dd startWord endWord rounds Hinit Hs Hlen)
        as (res & Hrun & _). eauto.
    + destruct rounds as [|n]; [lia|].
      apply init_dash in Hinit as [_ Hod].
      unfold getShortestTransformationSequence.
      rewrite (query_outside dict) by done. eauto.
  - intros Hs Hne.
    assert ((∀ ws, ¬ ladder dict startWord endWord ws) →
            ∃ dd', getShortestTransformationSequence (length dict) dd
                     startWord endWord = Some (Ok (dd', None)) ∧
                   searchState dd' = Exhausted) as Hexh;
      [|split; [|done]; intros Hno; destruct (Hexh Hno) as (dd' & ? & ?);
        by exists (length dict), dd'].
    intros Hno.
    destruct (query_total dict dd startWord endWord (length dict) Hinit Hs)
      as (res & Hrun & Hok); [done|].
    destruct Hok as (dd' & -> & [Hfin Hres]).
    { apply init_dash in Hinit as [_ (_ & _ & _ & Huni)].
      intros x Hx ->. apply (Huni _ _ Hx) in Hs. by destruct startWord. }
    exists dd'. unfold searchState. rewrite Hfin.
    destruct (successfulPath dd') as [q|]; [|done].
    destruct Hres as (r & Hgood & Hlast & _).
    destruct (Hno (words q)). by apply (good_path_ladder _ _ _ (S r)).
  - intros Hs rounds. apply init_dash in Hinit as [_ Hod].
    unfold getShortestTransformationSequence.
    by rewrite (query_outside dict).
Qed.

(** C3.  When the start word is the end word the search does not succeed:
    [getShortestTransformationSequence] returns no path, and whatever number
    [lengthOfShortestTransform] returns is [-1], never [0].  From hot to hot
    over hot and dot it returns [-1]. *)
Theorem same_word_returns_minus_one :
  (∀ (dict : list word) (dd dd' : DictionaryDash) (wd : word) (rounds : nat)
     (res : option SearchPath),
     DictionaryDash_init dict = Ok dd →
     getShortestTransformationSequence rounds dd wd wd = Some (Ok (dd', res)) →
     res = None) ∧
  (∀ (rounds : nat) (wd : word) (dict : list word) (n : Z),
     snd (lengthOfShortestTransform rounds wd wd dict) = Some (Ok n) →
     n = (-1)%Z) ∧
  snd (lengthOfShortestTransform 2 hot hot [hot; dot]) = Some (Ok (-1)%Z).
Proof.
  assert (∀ (dict : list word) (wd : word) (dd' : DictionaryDash),
            wd ∈ dict → search_result dict wd wd dd' →
            successfulPath dd' = None) as Hnone.
  { intros dict wd dd' Hwd [_ Hres].
    destruct (successfulPath dd') as [q|]; [|done].
    destruct Hres as (r & _ & _ & Hfar). destruct Hfar. by constructor. }
  assert (∀ (rounds : nat) (wd : word) (dict : list word) (n : Z),
            snd (lengthOfShortestTransform rounds wd wd dict) = Some (Ok n) →
            n = (-1)%Z) as Hgen.
  { intros rounds wd dict n (dd' & Hres & ->)%lengthOfShortestTransform_sound.
    unfold answer. by rewrite (Hnone _ _ _ (augment_start wd wd dict) Hres). }
  split_and!; [|done|].
  - intros dict dd dd' wd rounds res Hinit Hrun.
    destruct (query_sound _ _ _ _ _ _ _ Hinit Hrun) as (Hwd & Hres & ->).
    by apply (Hnone dict wd).
  - destruct (lengthOfShortestTransform_total 2 hot hot [hot; dot])
      as [n Hn]; [| done | done |].
    + apply Forall_forall. repeat constructor.
    + by rewrite Hn, (Hgen _ _ _ _ Hn).
Qed.

(** C4, amended.  When the words of the dictionary, with the start and end words
    added, all have one non-zero length and the start word is not the end
    word, [lengthOfShortestTransform] returns a number: [-1] exactly when no
    ladder leads from the start word to the end word, and otherwise the
    number of transformations of a ladder that no other ladder undercuts.
    When two of those words differ in length it raises [ValueError].  From
    hot to xyz over hot, dot, dog it returns [-1]. *)
Theorem lengthOfShortestTransform_spec :
  (∀ (startWord endWord : word) (dict : list word) (rounds : nat),
     (∀ x, x ∈ augment startWord endWord dict → length x = length startWord) →
     startWord ≠ [] → startWord ≠ endWord →
     length (augment startWord endWord dict) ≤ rounds →
     ∃ n, snd (lengthOfShortestTransform rounds startWord endWord dict)
            = Some (Ok n) ∧
          (n = (-1)%Z ↔
           ∀ ws, ¬ ladder (augment startWord endWord dict)
                     startWord endWord ws) ∧
          (n ≠ (-1)%Z →
           ∃ ws, ladder (augment startWord endWord dict) startWord endWord ws ∧
                 n = (Z.of_nat (length ws) - 1)%Z ∧
                 ∀ ws', ladder (augment startWord endWord dict)
                          startWord endWord ws' →
                        (n ≤ Z.of_nat (length ws') - 1)%Z)) ∧
  (∀ (startWord endWord : word) (dict : list word) (rounds : nat),
     (∃ u v, u ∈ augment startWord endWord dict ∧
             v ∈ augment startWord endWord dict ∧ length u ≠ length v) →
     snd (lengthOfShortestTransform rounds startWord endWord dict)
       = Some (Raise ValueError)) ∧
  (∀ rounds, 4 ≤ rounds →
     snd (lengthOfShortestTransform rounds hot xyz three_words)
       = Some (Ok (-1)%Z)).
Proof.
  assert (∀ (s t : word) (dict : list word) (rounds : nat),
     (∀ x, x ∈ augment s t dict → length x = length s) →
     s ≠ [] → s ≠ t → length (augment s t dict) ≤ rounds →
     ∃ n, snd (lengthOfShortestTransform rounds s t dict) = Some (Ok n) ∧
          (n = (-1)%Z ↔ ∀ ws, ¬ ladder (augment s t dict) s t ws) ∧
          (n ≠ (-1)%Z →
           ∃ ws, ladder (augment s t dict) s t ws ∧
                 n = (Z.of_nat (length ws) - 1)%Z ∧
                 ∀ ws', ladder (augment s t dict) s t ws' →
                        (n ≤ Z.of_nat (length ws') - 1)%Z)) as Hgen.
  { intros s t dict rounds Huni Hne Hst Hrounds.
    destruct (lengthOfShortestTransform_total rounds s t dict Huni Hne Hrounds)
      as [n Hn].
    exists n. split; [done|].
    apply lengthOfShortestTransform_sound in Hn as (dd' & Hres & ->).
    split; [by apply answer_minus_one|].
    intros Hfound.
    destruct (answer_found _ _ _ _ Hres Hfound) as (q & _ & Hl & Hlen & Hmin).
    by exists (words q). }
  split_and!; [done | |].
  - intros s t dict rounds (u & v & Hu & Hv & Hlen).
    unfold lengthOfShortestTransform, DictionaryDash_init. simpl.
    destruct (OrganisedDictionary_init (augment s t dict)) as [od|e] eqn:Hod;
      simpl.
    + apply init_index in Hod as (_ & _ & _ & Huni). by destruct (Hlen (Huni u v Hu Hv)).
    + by apply init_raise in Hod as [-> _].
  - intros rounds Hrounds.
    destruct (Hgen hot xyz three_words rounds) as (n & Hn & Hiff & _);
      [| done | done | done |].
    + apply Forall_forall. repeat constructor.
    + rewrite Hn. do 2 f_equal. apply Hiff.
      intros ws Hws%ladder_within. apply hot_xyz_apart in Hws.
      revert Hws. compute_done.
Qed.

End Specification.

(** ** The theorems at concrete inputs *)

Lemma getTransformableWords_members_witness :
  dot ∈ six_words ∧ length dot = length hot ∧
  differ_in_exactly_one hot dot ∧ dot ≠ hot.
Proof.
  eapply (λ Hinit Hin,
            proj2 (getTransformableWords_members (H := simple_runtime)
                     six_words _ hot Hinit Hin) [dot; lot]).
  - vm_compute. reflexivity.
  - compute_done.
  - vm_compute. reflexivity.
  - compute_done.
Defined.

Lemma getTransformableWords_reciprocal_witness :
  ∃ lB, getTransformableWords (H := simple_runtime)
          {| od_words := [hot; dot];
             hashedWords :=
               indexWord (H := simple_runtime)
                 (indexWord (H := simple_runtime) ∅ hot) dot;
             wordLength := Some 3 |} dot = Ok lB ∧ hot ∈ lB.
Proof.
  apply (getTransformableWords_reciprocal (H := simple_runtime)
           [hot; dot] _ hot dot [dot]).
  - reflexivity.
  - compute_done.
  - compute_done.
  - vm_compute. reflexivity.
  - compute_done.
Defined.

Lemma returned_path_is_ladder_witness :
  words {| words := [hot; dot; dog] |} ≠ [] ∧
  head (words {| words := [hot; dot; dog] |}) = Some hot ∧
  last (words {| words := [hot; dot; dog] |}) = Some dog ∧
  (∀ i a b, words {| words := [hot; dot; dog] |} !! i = Some a →
            words {| words := [hot; dot; dog] |} !! S i = Some b →
            legalTransformation a b = true) ∧
  (∀ x, x ∈ words {| words := [hot; dot; dog] |} → x ∈ six_words).
Proof.
  eapply (returned_path_is_ladder (H := simple_runtime) six_words _ _ hot dog 6).
  - vm_compute. reflexivity.
  - vm_compute. reflexivity.
Defined.

Lemma returned_path_is_shortest_witness :
  (numTransformations {| words := [hot; dot; dog] |}
   ≤ Z.of_nat (length [hot; lot; log; dog]) - 1)%Z.
Proof.
  eapply (proj1 (returned_path_is_shortest (H := simple_runtime))
            six_words _ _ hot dog 6).
  - vm_compute. reflexivity.
  - vm_compute. reflexivity.
  - split_and!; [reflexivity | reflexivity | | by vm_compute].
    apply Forall_forall. repeat constructor.
Defined.

Lemma search_terminates_witness :
  ∃ dd dd',
    DictionaryDash_init (H := simple_runtime) three_words = Ok dd ∧
    getShortestTransformationSequence (H := simple_runtime)
      (length three_words) dd hot xyz = Some (Ok (dd', None)) ∧
    searchState dd' = Exhausted.
Proof.
  destruct (DictionaryDash_init (H := simple_runtime) three_words)
    as [dd|e] eqn:Hinit; [|by vm_compute in Hinit].
  destruct (proj1 (proj2 (search_terminates (H := simple_runtime)
                            three_words dd hot xyz Hinit)))
    as [_ Hexh]; [compute_done | done |].
  destruct Hexh as (dd' & Hrun & Hstate).
  - intros ws (_ & Hlast%last_Some_elem_of & Hin & _).
    apply Hin in Hlast. revert Hlast. compute_done.
  - exists dd, dd'. split_and!; [reflexivity | exact Hrun | exact Hstate].
Defined.

Lemma lengthOfShortestTransform_spec_witness :
  ∃ n, snd (lengthOfShortestTransform (H := simple_runtime) 6 hot cog six_words)
         = Some (Ok n) ∧
       (n = (-1)%Z ↔
        ∀ ws, ¬ ladder (augment hot cog six_words) hot cog ws) ∧
       (n ≠ (-1)%Z →
        ∃ ws, ladder (augment hot cog six_words) hot cog ws ∧
              n = (Z.of_nat (length ws) - 1)%Z ∧
              ∀ ws', ladder (augment hot cog six_words) hot cog ws' →
                     (n ≤ Z.of_nat (length ws') - 1)%Z).
Proof.
  apply (proj1 (lengthOfShortestTransform_spec (H := simple_runtime))
           hot cog six_words 6).
  - apply Forall_forall. vm_compute. repeat constructor.
  - done.
  - done.
  - vm_compute. lia.
Defined.

Lemma OrganisedDictionary_init_raises_witness :
  ∃ e, OrganisedDictionary_init (H := simple_runtime) [hot; xy] = Raise e.
Proof.
  apply (proj1 (OrganisedDictionary_init_raises (H := simple_runtime)
                  hot [xy])).
  exists xy. split; [compute_done | by vm_compute].
Defined.

(** ** Where the specification asks for more than the code does *)

(** A query from dog over the one word hot has no ladder to follow, and
    does not end exhausted: the lookup of dog fails its assertion. *)
Lemma start_outside_dictionary :
  ∃ dd, DictionaryDash_init (H := simple_runtime) [hot] = Ok dd ∧
        ¬ unreachable_exhausts (H := simple_runtime) [hot] dd dog hot.
Proof.
  destruct (DictionaryDash_init (H := simple_runtime) [hot])
    as [dd|e] eqn:Hinit; [|by vm_compute in Hinit].
  exists dd. split; [done|]. intros Hclaim.
  destruct Hclaim as (rounds & dd' & Hle & Hrun & _).
  - intros ws (Hhead%head_Some_elem_of & _ & Hin & _).
    apply Hin in Hhead. revert Hhead. compute_done.
  - apply (init_dash (H := simple_runtime)) in Hinit as [_ Hod].
    unfold getShortestTransformationSequence in Hrun.
    destruct rounds as [|n]; [done|].
    rewrite (query_outside (H := simple_runtime) [hot]) in Hrun; [done|done|].
    compute_done.
Qed.


(** No ladder leads from hot to xy, and yet [lengthOfShortestTransform] does
    not return [-1]: the index refuses the two lengths with [ValueError]. *)
Lemma mixed_lengths_do_not_return :
  ¬ minus_one_iff_no_ladder (H := simple_runtime) hot xy [hot].
Proof.
  intros [_ Hback]. destruct Hback as [rounds Hrun].
  - intros ws Hws%ladder_within%within_length. by vm_compute in Hws.
  - by vm_compute in Hrun.
Qed.

(** The call of that input, evaluated. *)
Example mixed_lengths_raise (rounds : nat) :
  lengthOfShortestTransform (H := simple_runtime) rounds hot xy [hot]
  = ([hot; xy], Some (Raise ValueError)).
Proof. reflexivity. Qed.

(** The same search under a runtime that iterates sets backwards. *)
Example six_words_backwards :
  snd (lengthOfShortestTransform (H := reverse_runtime) 6 hot cog six_words)
  = Some (Ok 3%Z).
Proof. vm_compute. reflexivity. Qed.

(** * Further properties *)

Lemma six_index_init :
  OrganisedDictionary_init (H := simple_runtime) six_words = Ok six_index.
Proof. reflexivity. Qed.

Lemma six_dash_init :
  DictionaryDash_init (H := simple_runtime) six_words = Ok six_dash.
Proof. reflexivity. Qed.

(** ** The predicate and the masked variants *)

(** X1.  [legalTransformation] does not depend on the order of its arguments. *)
Theorem legalTransformation_comm (word1 word2 : word) :
  legalTransformation word1 word2 = legalTransformation word2 word1.
Proof.
  destruct (legalTransformation word1 word2) eqn:H12;
    destruct (legalTransformation word2 word1) eqn:H21; try done.
  - apply legal_sym in H12. congruence.
  - apply legal_sym in H21. congruence.
Qed.

Lemma editWord_length (i : nat) (wd : word) :
  i < length wd → length (editWord i wd) = length wd.
Proof.
  intros Hi. unfold editWord.
  rewrite length_app, length_take_le by lia. simpl. rewrite length_drop. lia.
Qed.

Lemma editWord_lookup (i j : nat) (wd : word) :
  i < length wd →
  editWord i wd !! j = if decide (j = i) then Some "_"%char else wd !! j.
Proof.
  intros Hi. unfold editWord.
  destruct (decide (j < i)) as [Hlt|Hge].
  - rewrite lookup_app_l by (rewrite length_take_le; lia).
    rewrite lookup_take_lt by done. by rewrite decide_False by lia.
  - rewrite lookup_app_r by (rewrite length_take_le; lia).
    rewrite length_take_le by lia.
    destruct (decide (j = i)) as [->|Hne].
    + by replace (i - i) with 0 by lia.
    + replace (j - i) with (S (j - S i)) by lia. simpl.
      rewrite lookup_drop. f_equal. lia.
Qed.

(** X2.  The masked variant of a word at one of its positions has the word's
    length, the marker at that position and the word's letters elsewhere;
    two words have the same variant at a position exactly when they have the
    same length and the same letters at every other position. *)
Theorem editWord_mask (i : nat) (a : word) :
  i < length a →
  length (editWord i a) = length a ∧
  editWord i a !! i = Some "_"%char ∧
  (∀ j, j ≠ i → editWord i a !! j = a !! j) ∧
  (∀ b, i < length b →
        editWord i a = editWord i b ↔
        length a = length b ∧ ∀ j, j ≠ i → a !! j = b !! j).
Proof.
  intros Hi. split_and!.
  - by apply editWord_length.
  - rewrite editWord_lookup by done. by rewrite decide_True.
  - intros j Hj. rewrite editWord_lookup by done. by rewrite decide_False.
  - intros b Hb. split.
    + intros Heq. split.
      * rewrite <- (editWord_length i a), <- (editWord_length i b) by done.
        by rewrite Heq.
      * intros j Hj.
        pose proof (editWord_lookup i j a Hi) as Ha.
        pose proof (editWord_lookup i j b Hb) as Hb'.
        rewrite decide_False in Ha, Hb' by done. congruence.
    + intros [Hlen Hsame]. apply list_eq. intros j.
      rewrite !editWord_lookup by done. case_decide; [done|]. by apply Hsame.
Qed.

Lemma editWord_mask_witness :
  length (editWord 1 hot) = length hot ∧
  editWord 1 hot !! 1 = Some "_"%char ∧
  (∀ j, j ≠ 1 → editWord 1 hot !! j = hot !! j) ∧
  (∀ b, 1 < length b →
        editWord 1 hot = editWord 1 b ↔
        length hot = length b ∧ ∀ j, j ≠ 1 → hot !! j = b !! j).
Proof. apply (editWord_mask 1 hot). vm_compute. lia. Defined.

(** ** What the index holds and what the lookup returns *)

Section IndexContents.
Context `{PyRuntime}.

Lemma addToBucket_keyed m wd h0 :
  (∀ h b v, m !! h = Some b → v ∈ b → h ∈ getAllWordHashNumbers v) →
  h0 ∈ getAllWordHashNumbers wd →
  ∀ h b v, addToBucket wd m h0 !! h = Some b → v ∈ b →
           h ∈ getAllWordHashNumbers v.
Proof.
  intros Hm Hh0 h b v. unfold addToBucket. rewrite lookup_insert.
  case_decide as Hh; [|apply Hm]. subst h. intros [= <-].
  intros [->|Hv]%elem_of_set_add; [done|].
  destruct (m !! h0) as [b0|] eqn:Hb0; simpl in Hv.
  - by apply (Hm h0 b0).
  - by apply elem_of_nil in Hv.
Qed.

Lemma fold_addToBucket_keyed wd hs m :
  (∀ h b v, m !! h = Some b → v ∈ b → h ∈ getAllWordHashNumbers v) →
  (∀ h, h ∈ hs → h ∈ getAllWordHashNumbers wd) →
  ∀ h b v, foldl (addToBucket wd) m hs !! h = Some b → v ∈ b →
           h ∈ getAllWordHashNumbers v.
Proof.
  revert m. induction hs as [|h0 hs IH]; intros m Hm Hhs; simpl; [done|].
  apply IH.
  - apply addToBucket_keyed; [done|]. apply Hhs. left.
  - intros h Hh. apply Hhs. by right.
Qed.

Lemma initLoop_keyed wl ws m m' :
  initLoop wl m ws = Ok m' →
  (∀ h b v, m !! h = Some b → v ∈ b → h ∈ getAllWordHashNumbers v) →
  ∀ h b v, m' !! h = Some b → v ∈ b → h ∈ getAllWordHashNumbers v.
Proof.
  revert m. induction ws as [|wd ws IH]; intros m Hrun Hm; simpl in Hrun.
  - by injection Hrun as <-.
  - case_decide; [done|]. apply (IH _ Hrun).
    by apply fold_addToBucket_keyed.
Qed.

(** X3.  In a built index a word sits in the bucket of a key exactly when it is
    a dictionary word and the key is one of its hash numbers; no bucket
    holds a word twice. *)
Theorem index_contents (dict : list word) (od : OrganisedDictionary) :
  OrganisedDictionary_init dict = Ok od →
  (∀ h v, (∃ b, hashedWords od !! h = Some b ∧ v ∈ b) ↔
          v ∈ dict ∧ h ∈ getAllWordHashNumbers v) ∧
  (∀ h b, hashedWords od !! h = Some b → NoDup b).
Proof.
  intros Hinit. pose proof (init_index _ _ Hinit) as (_ & Hwithin & Hfiled & _).
  split; [|intros h b Hb; by apply (Hwithin h b)].
  intros h v. split.
  - intros (b & Hb & Hv). split; [by apply (Hwithin h b)|].
    revert h b v Hb Hv. unfold OrganisedDictionary_init in Hinit.
    destruct dict as [|first rest].
    + injection Hinit as <-. simpl. intros h b v Hb.
      by rewrite lookup_empty in Hb.
    + destruct (initLoop _ _ _) as [m|] eqn:Hrun; simpl in Hinit; [|done].
      injection Hinit as <-. simpl. apply (initLoop_keyed _ _ _ _ Hrun).
      intros h b v Hb. by rewrite lookup_empty in Hb.
  - intros [Hv (i & -> & Hi%elem_of_seq)%list_elem_of_fmap].
    apply (Hfiled v Hv i). lia.
Qed.

(** X4.  For a word of the dictionary other than the empty word the lookup
    returns, without repetition, exactly the dictionary words one legal
    transformation away. *)
Theorem getTransformableWords_exact (dict : list word)
    (od : OrganisedDictionary) (wd : word) :
  OrganisedDictionary_init dict = Ok od → wd ∈ dict → wd ≠ [] →
  ∃ l, getTransformableWords od wd = Ok l ∧ NoDup l ∧
       ∀ v, v ∈ l ↔ v ∈ dict ∧ legalTransformation wd v = true.
Proof.
  intros Hod%init_index Hwd Hne.
  destruct (getTransformableWords_total dict od wd Hod Hwd Hne) as [l Hl].
  exists l. split; [done|]. by apply (getTransformableWords_ok dict od wd).
Qed.

(** X6.  The lookup fails its assertion for a word outside the dictionary, and
    raises [KeyError] for the empty word of a dictionary that has it. *)
Theorem getTransformableWords_raises (dict : list word)
    (od : OrganisedDictionary) :
  OrganisedDictionary_init dict = Ok od →
  (∀ wd, wd ∉ dict → getTransformableWords od wd = Raise AssertionError) ∧
  ([] ∈ dict → getTransformableWords od [] = Raise KeyError).
Proof.
  intros (Hws & _)%init_index. unfold getTransformableWords. rewrite Hws.
  split.
  - intros wd Hwd. by rewrite decide_False.
  - intros Hin. by rewrite decide_True.
Qed.

End IndexContents.

(** X5.  The words the lookup returns do not depend on the hash function, on the
    order in which sets are iterated, or on the order and repetitions of the
    dictionary: two indexes of the same words return the same words, up to
    order. *)
Theorem getTransformableWords_independent (H1 H2 : PyRuntime)
    (dict1 dict2 : list word) (od1 od2 : OrganisedDictionary)
    (wd : word) (l1 l2 : list word) :
  (∀ x, x ∈ dict1 ↔ x ∈ dict2) →
  OrganisedDictionary_init (H := H1) dict1 = Ok od1 →
  OrganisedDictionary_init (H := H2) dict2 = Ok od2 →
  getTransformableWords (H := H1) od1 wd = Ok l1 →
  getTransformableWords (H := H2) od2 wd = Ok l2 →
  l1 ≡ₚ l2.
Proof.
  intros Hsame Hod1%init_index Hod2%init_index Hl1 Hl2.
  destruct (getTransformableWords_ok dict1 od1 wd l1 Hod1 Hl1) as [Hnd1 Hin1].
  destruct (getTransformableWords_ok dict2 od2 wd l2 Hod2 Hl2) as [Hnd2 Hin2].
  apply NoDup_Permutation; [done | done |].
  intros v. rewrite Hin1, Hin2, Hsame. done.
Qed.

Lemma index_contents_witness :
  (∀ h v, (∃ b, hashedWords six_index !! h = Some b ∧ v ∈ b) ↔
          v ∈ six_words ∧
          h ∈ getAllWordHashNumbers (H := simple_runtime) v) ∧
  (∀ h b, hashedWords six_index !! h = Some b → NoDup b).
Proof.
  apply (index_contents (H := simple_runtime) six_words six_index).
  reflexivity.
Defined.

Lemma getTransformableWords_exact_witness :
  ∃ l, getTransformableWords (H := simple_runtime) six_index hot = Ok l ∧
       NoDup l ∧
       ∀ v, v ∈ l ↔ v ∈ six_words ∧ legalTransformation hot v = true.
Proof.
  apply (getTransformableWords_exact (H := simple_runtime) six_words).
  - reflexivity.
  - compute_done.
  - done.
Defined.

Lemma getTransformableWords_raises_witness :
  (∀ wd : word, wd ∉ [[] : word] →
         getTransformableWords (H := simple_runtime)
           {| od_words := [[]]; hashedWords := ∅; wordLength := Some 0 |} wd
         = Raise AssertionError) ∧
  (([] : word) ∈ [[] : word] →
   getTransformableWords (H := simple_runtime)
     {| od_words := [[]]; hashedWords := ∅; wordLength := Some 0 |} []
   = Raise KeyError).
Proof.
  apply (getTransformableWords_raises (H := simple_runtime) [[]]).
  reflexivity.
Defined.

Lemma getTransformableWords_independent_witness : [dot; lot] ≡ₚ [lot; dot].
Proof.
  eapply (getTransformableWords_independent simple_runtime reverse_runtime
            six_words six_words six_index _ hot).
  - done.
  - reflexivity.
  - vm_compute. reflexivity.
  - vm_compute. reflexivity.
  - vm_compute. reflexivity.
Defined.

(** ** Paths *)

(** X7.  A copy holds the words of the path it was copied from, and the copy
    with a word added holds those words followed by it; a word added to a
    path is its last word and counts as one more transformation; reading the
    last word raises [IndexError] exactly when the path is empty; a path
    seeded with one word has no transformation. *)
Theorem SearchPath_operations (p : SearchPath) (wd : word) :
  words (makeCopy p) = words p ∧
  words (addWord (makeCopy p) wd) = words p ++ [wd] ∧
  lastWord (addWord p wd) = Ok wd ∧
  numTransformations (addWord p wd) = (numTransformations p + 1)%Z ∧
  (lastWord p = Raise IndexError ↔ words p = []) ∧
  (∀ e, lastWord p = Ok e → ∃ front, words p = front ++ [e]) ∧
  numTransformations (SearchPath_init (Some wd)) = 0%Z.
Proof.
  split_and!.
  - by rewrite makeCopy_id.
  - by rewrite makeCopy_id.
  - unfold lastWord, addWord. simpl. by rewrite last_snoc.
  - unfold numTransformations, addWord. simpl. rewrite length_app. simpl. lia.
  - unfold lastWord. destruct (last (words p)) as [e|] eqn:He.
    + split; [done|]. intros Hnil. by rewrite Hnil in He.
    + split; [|done]. intros _. by apply last_None.
  - intros e He%lastWord_spec. by apply last_Some.
  - done.
Qed.

(** ** One round *)

Section RoundProofs.
Context `{PyRuntime}.

Lemma getTransformableWords_NoDup od wd l :
  getTransformableWords od wd = Ok l → NoDup l.
Proof.
  unfold getTransformableWords. case_decide; [|done].
  destruct (collectBuckets _ _ _) as [mw|] eqn:Hcollect; simpl; [|done].
  apply collectBuckets_ok in Hcollect as [Hnd _]; [|apply NoDup_nil_2].
  unfold set_remove. case_decide; simpl; [|done]. intros [= <-].
  apply NoDup_filter. rewrite set_order_perm. by apply NoDup_filter.
Qed.

Lemma extendPath_branch od t reached p ext claimed :
  extendPath od t reached p = Ok (Branch ext claimed) →
  length ext = length claimed ∧ NoDup claimed ∧
  ∀ v, v ∈ claimed → v ∉ reached.
Proof.
  unfold extendPath. destruct (lastWord p) as [e|]; simpl; [|done].
  destruct (getTransformableWords od e) as [nw|] eqn:Hnw; simpl; [|done].
  apply getTransformableWords_NoDup in Hnw.
  set (valid := filter (λ wd, wd ∉ reached) nw).
  assert (NoDup valid) as Hnd by (by apply NoDup_filter).
  assert (∀ v, v ∈ valid → v ∉ reached) as Hfresh.
  { intros v Hv. unfold valid in Hv. by apply list_elem_of_filter in Hv as [? _]. }
  clearbody valid. case_decide; [done|]. case_decide; [done|].
  destruct (list_pop valid) as [[rest x]|] eqn:Hpop; simpl; [|done].
  apply list_pop_spec in Hpop. intros [= <- <-]. rewrite <- Hpop.
  split_and!; [|done|done].
  simpl. rewrite length_fmap, Hpop, length_app. simpl. lia.
Qed.

Lemma extendLoop_shape od t :
  ∀ paths acc cur acc' cur' found,
    extendLoop od t paths acc cur = Ok (acc', cur', found) →
    ∃ added new,
      acc' = acc ++ added ∧ cur' = cur ++ new ∧
      length added = length new ∧ (NoDup cur → NoDup cur').
Proof.
  induction paths as [|p rest IH]; intros acc cur acc' cur' found Hrun;
    simpl in Hrun.
  { injection Hrun as <- <- <-. exists [], []. by rewrite !app_nil_r. }
  destruct (extendPath od t cur p) as [ext|] eqn:Hext; simpl in Hrun; [|done].
  destruct ext as [|q|extended claimed].
  - by apply (IH _ _ _ _ found).
  - injection Hrun as <- <- <-. exists [], []. by rewrite !app_nil_r.
  - apply extendPath_branch in Hext as (Hlen & Hnd & Hfresh).
    destruct (IH _ _ _ _ _ Hrun) as (added & new & -> & -> & Hlen' & Hnd').
    exists (extended ++ added), (claimed ++ new).
    rewrite !app_assoc. split_and!; [done | done | |].
    + rewrite !length_app. lia.
    + intros Hcur. apply Hnd'. apply NoDup_app. split_and!; [done | | done].
      intros x Hx Hin. by apply (Hfresh x).
Qed.

Lemma extendPaths_shape dd dd' :
  extendPaths dd = Ok dd' →
  dictionary dd' = dictionary dd ∧
  organisedDictionary dd' = organisedDictionary dd ∧
  targetWord dd' = targetWord dd ∧
  ∃ new, reachedWords dd' = reachedWords dd ++ new ∧
         length (searchPaths dd') = length new ∧
         (NoDup (reachedWords dd) → NoDup (reachedWords dd')).
Proof.
  unfold extendPaths.
  destruct (extendLoop _ _ _ _ _) as [[[acc' cur'] found]|] eqn:Hrun;
    simpl; [|done].
  intros [= <-]. simpl. split_and!; [done | done | done |].
  apply extendLoop_shape in Hrun as (added & new & -> & -> & Hlen & Hnd).
  exists new. by split_and!.
Qed.


Lemma searchLoop_shape n :
  ∀ dd dd', searchLoop n dd = Some (Ok dd') →
  dictionary dd' = dictionary dd ∧
  organisedDictionary dd' = organisedDictionary dd ∧
  (NoDup (reachedWords dd) → NoDup (reachedWords dd')).
Proof.
  induction n as [|n IH]; intros dd dd'; simpl.
  - destruct (finished dd); [|done]. by intros [= <-].
  - destruct (finished dd); [by intros [= <-]|].
    destruct (extendPaths dd) as [dd1|] eqn:Hstep; [|done].
    apply extendPaths_shape in Hstep as (Hd & Ho & _ & new & _ & _ & Hnd).
    intros (Hd' & Ho' & Hnd')%IH. split_and!; [congruence | congruence | auto].
Qed.

(** X9.  A search object can be used again: a query on the object a finished
    query leaves behind gives what it gives on the object before that
    query. *)
Theorem query_reuse (dd dd1 : DictionaryDash) (n : nat) (s1 t1 : word)
    (r1 : option SearchPath) :
  getShortestTransformationSequence n dd s1 t1 = Some (Ok (dd1, r1)) →
  ∀ m s2 t2,
    getShortestTransformationSequence m dd1 s2 t2
    = getShortestTransformationSequence m dd s2 t2.
Proof.
  unfold getShortestTransformationSequence.
  destruct (searchLoop n (startQuery dd s1 t1)) as [[dd2|]|] eqn:Hrun;
    [|done|done].
  intros [= <- <-] m s2 t2.
  apply searchLoop_shape in Hrun as (Hd & Ho & _). simpl in Hd, Ho.
  unfold startQuery. by rewrite Hd, Ho.
Qed.

End RoundProofs.

(** ** The whole search *)

Lemma within_ladder (dict : list word) (s x : word) (n : nat) :
  within dict s n x → ∃ ws, ladder dict s x ws ∧ length ws ≤ S n.
Proof.
  induction 1 as [n Hs|n u v Hu IH Hlegal Hv].
  - exists [s]. split; [by apply ladder_single | simpl; lia].
  - destruct IH as (ws & Hws & Hlen). exists (ws ++ [v]). split.
    + by apply (ladder_snoc _ _ _ u).
    + rewrite length_app. simpl. lia.
Qed.

Section DepthProofs.
Context `{PyRuntime}.

Lemma extendPaths_outcome dict s t r dd dd' :
  dd_inv dict s t r dd → extendPaths dd = Ok dd' →
  (finished dd' = false ∧ dd_inv dict s t (S r) dd') ∨
  (finished dd' = true ∧
   match successfulPath dd' with
   | Some q => length (words q) = S (S r)
   | None => round_inv dict s t (S r) [] (reachedWords dd')
   end).
Proof.
  intros (Hod & Htarget & Hfin & Hnone & Hne & Hinv). unfold extendPaths.
  destruct (extendLoop _ _ _ _ _) as [[[acc' cur'] found]|] eqn:Hrun;
    simpl; [|done].
  intros [= <-]. rewrite Htarget in Hrun. simpl.
  destruct found as [q|].
  - right. split; [done|].
    destruct (extendLoop_inv dict (organisedDictionary dd) s t r
                (reachedWords dd) Hod (searchPaths dd) [] (reachedWords dd)
                acc' cur' (Some q)) as (_ & (_ & Hlen & _) & _);
      [apply Hinv | | done | done].
    split; [by intros q' []%elem_of_nil | by left | done].
  - pose proof (round_inv_next _ _ _ _ _ _ _ _ _ Hod Hinv Hrun) as Hinv'.
    destruct acc' as [|p0 acc'].
    + right. split; [done|]. by rewrite Hnone.
    + left. split; [done|]. by split_and!.
Qed.

Lemma searchLoop_step n dd dd1 :
  finished dd = false → extendPaths dd = Ok dd1 →
  searchLoop (S n) dd = searchLoop n dd1.
Proof. intros Hfin Hstep. simpl. by rewrite Hfin, Hstep. Qed.

(** A search that runs round [r] next and ends with a path ends [k] rounds
    later with a path of [r + k + 1] transformations. *)
Lemma searchLoop_rounds dict s t n :
  ∀ r dd dd' q,
    dd_inv dict s t r dd → searchLoop n dd = Some (Ok dd') →
    successfulPath dd' = Some q →
    ∃ k, k < n ∧ length (words q) = S (S (r + k)) ∧
         searchLoop k dd = None ∧ searchLoop (S k) dd = Some (Ok dd').
Proof.
  induction n as [|n IH]; intros r dd dd' q Hinv Hrun Hq;
    pose proof Hinv as (_ & _ & Hfin & _); simpl in Hrun;
    rewrite Hfin in Hrun; [done|].
  destruct (extendPaths dd) as [dd1|] eqn:Hstep; [|done].
  destruct (extendPaths_outcome dict s t r dd dd1 Hinv Hstep)
    as [[Hfin1 Hinv1]|[Hfin1 Hres]].
  - destruct (IH (S r) dd1 dd' q Hinv1 Hrun Hq) as (k & Hk & Hlen & Hno & Hyes).
    exists (S k). split_and!; [lia | rewrite Hlen; f_equal; lia | |].
    + by rewrite (searchLoop_step k dd dd1).
    + by rewrite (searchLoop_step (S k) dd dd1).
  - assert (dd' = dd1) as ->.
    { destruct n; simpl in Hrun; rewrite Hfin1 in Hrun; congruence. }
    rewrite Hq in Hres. exists 0. split_and!; [lia | | |].
    + rewrite Hres. f_equal. lia.
    + simpl. by rewrite Hfin.
    + rewrite (searchLoop_step 0 dd dd1) by done. simpl. by rewrite Hfin1.
Qed.

Lemma searchLoop_exhausted dict s t n :
  ∀ r dd dd',
    dd_inv dict s t r dd → searchLoop n dd = Some (Ok dd') →
    successfulPath dd' = None →
    ∃ r', round_inv dict s t r' [] (reachedWords dd').
Proof.
  induction n as [|n IH]; intros r dd dd' Hinv; simpl;
    pose proof Hinv as (_ & _ & Hfin & _); rewrite Hfin; [done|].
  destruct (extendPaths dd) as [dd1|] eqn:Hstep; [|done].
  destruct (extendPaths_outcome dict s t r dd dd1 Hinv Hstep)
    as [[Hfin1 Hinv1]|[Hfin1 Hres]].
  - by apply (IH (S r)).
  - intros Hrun Hq.
    assert (dd' = dd1) as ->.
    { destruct n; simpl in Hrun; rewrite Hfin1 in Hrun; congruence. }
    rewrite Hq in Hres. eauto.
Qed.

(** X10.  A path the search returns repeats no word, has at least two words and
    at most as many as the dictionary, and its two end words differ. *)
Theorem returned_path_distinct (dict : list word) (dd dd' : DictionaryDash)
    (startWord endWord : word) (rounds : nat) (p : SearchPath) :
  DictionaryDash_init dict = Ok dd →
  getShortestTransformationSequence rounds dd startWord endWord
    = Some (Ok (dd', Some p)) →
  NoDup (words p) ∧
  2 ≤ length (words p) ∧ length (words p) ≤ length dict ∧
  startWord ≠ endWord.
Proof.
  intros Hinit Hrun.
  destruct (query_sound _ _ _ _ _ _ _ Hinit Hrun) as (Hs & [_ Hres] & Hp).
  rewrite <- Hp in Hres.
  destruct Hres as (r & ([e (_ & _ & Hin & _)] & Hlen & Hnd) & _ & Hfar).
  split_and!; [done | lia | |].
  - apply submseteq_length. by apply NoDup_submseteq.
  - intros ->. destruct Hfar. by constructor.
Qed.

(** X11.  Rounds are depth: a path returned within some number of rounds has at
    most that many transformations; the search needs exactly as many rounds
    as the returned path has transformations, with fewer it has not
    finished and with that many it returns the same path. *)
Theorem search_rounds (dict : list word) (dd dd' : DictionaryDash)
    (startWord endWord : word) (rounds : nat) (p : SearchPath) :
  DictionaryDash_init dict = Ok dd →
  getShortestTransformationSequence rounds dd startWord endWord
    = Some (Ok (dd', Some p)) →
  (numTransformations p ≤ Z.of_nat rounds)%Z ∧
  (∀ n, (Z.of_nat n < numTransformations p)%Z →
        getShortestTransformationSequence n dd startWord endWord = None) ∧
  getShortestTransformationSequence (Z.to_nat (numTransformations p)) dd
    startWord endWord = Some (Ok (dd', Some p)).
Proof.
  intros Hinit Hrun.
  destruct (query_sound _ _ _ _ _ _ _ Hinit Hrun) as (Hs & _ & Hp).
  apply init_dash in Hinit as [_ Hod].
  unfold getShortestTransformationSequence in Hrun.
  destruct (searchLoop rounds (startQuery dd startWord endWord))
    as [[dd1|]|] eqn:Hloop; [|done|done].
  injection Hrun as -> Hq.
  destruct (searchLoop_rounds dict startWord endWord rounds 0 _ dd' p
              (startQuery_inv dict dd startWord endWord Hod Hs) Hloop Hq)
    as (k & Hk & Hlen & Hno & Hyes).
  unfold numTransformations. rewrite Hlen. simpl plus.
  split_and!; [lia | |].
  - intros n Hn. unfold getShortestTransformationSequence.
    destruct (searchLoop n (startQuery dd startWord endWord)) as [res|] eqn:Hn';
      [|done].
    rewrite (searchLoop_mono n k _ res Hn') in Hno; [done | lia].
  - replace (Z.to_nat (Z.of_nat (S (S k)) - 1)) with (S k) by lia.
    unfold getShortestTransformationSequence. by rewrite Hyes, Hq.
Qed.

(** X12.  When some ladder leads from a start word of the dictionary, not the
    empty word, to a different end word, the search returns a path, and
    within as many rounds as that ladder has transformations. *)
Theorem search_finds (dict : list word) (dd : DictionaryDash)
    (startWord endWord : word) (ws : list word) (rounds : nat) :
  DictionaryDash_init dict = Ok dd →
  startWord ≠ [] → startWord ≠ endWord →
  ladder dict startWord endWord ws → length ws - 1 ≤ rounds →
  ∃ dd' p, getShortestTransformationSequence rounds dd startWord endWord
           = Some (Ok (dd', Some p)).
Proof.
  intros Hinit Hne Hst Hws Hrounds.
  assert (startWord ∈ dict) as Hs.
  { destruct Hws as (Hh%head_Some_elem_of & _ & Hin & _). by apply Hin. }
  pose proof (init_dash _ _ Hinit) as [_ Hod].
  pose proof (startQuery_inv dict dd startWord endWord Hod Hs) as Hinv.
  destruct (searchLoop_terminates dict startWord endWord (length dict) 0 _ Hinv)
    as (res & Hloop & Hok); [lia|].
  destruct Hok as [dd' ->].
  { destruct Hod as (_ & _ & _ & Huni). intros x Hx ->.
    apply (Huni _ _ Hx) in Hs. by destruct startWord. }
  pose proof (searchLoop_sound _ _ _ _ _ _ _ Hinv Hloop) as [_ Hres].
  apply ladder_within in Hws.
  destruct (successfulPath dd') as [q|] eqn:Hq;
    [|by destruct (Hres Hst (length ws - 1))].
  destruct Hres as (r & (_ & Hlen & _) & _ & Hfar).
  destruct (searchLoop_rounds _ _ _ _ 0 _ dd' q Hinv Hloop Hq)
    as (k & _ & Hlen' & _ & Hyes).
  assert (r = k) as -> by (simpl in Hlen'; lia).
  assert (S k ≤ rounds) as Hle.
  { destruct (decide (length ws - 1 ≤ k)) as [Hle|]; [|lia].
    destruct Hfar. by apply (within_mono _ _ _ (length ws - 1)). }
  exists dd', q. unfold getShortestTransformationSequence.
  by rewrite (searchLoop_mono (S k) rounds _ _ Hyes Hle), Hq.
Qed.

(** X13.  When the search ends without a path, the reached words are exactly the
    words that some ladder from the start word leads to, each once. *)
Theorem exhausted_reached (dict : list word) (dd dd' : DictionaryDash)
    (startWord endWord : word) (rounds : nat) :
  DictionaryDash_init dict = Ok dd →
  getShortestTransformationSequence rounds dd startWord endWord
    = Some (Ok (dd', None)) →
  NoDup (reachedWords dd') ∧
  ∀ x, x ∈ reachedWords dd' ↔ ∃ ws, ladder dict startWord x ws.
Proof.
  intros Hinit Hrun.
  destruct (query_sound _ _ _ _ _ _ _ Hinit Hrun) as (Hs & _ & Hp).
  apply init_dash in Hinit as [_ Hod].
  unfold getShortestTransformationSequence in Hrun.
  destruct (searchLoop rounds (startQuery dd startWord endWord))
    as [[dd1|]|] eqn:Hloop; [|done|done].
  injection Hrun as -> Hq. split.
  - apply searchLoop_shape in Hloop as (_ & _ & Hnd). apply Hnd. simpl.
    apply NoDup_singleton.
  - destruct (searchLoop_exhausted dict startWord endWord rounds 0 _ dd'
                (startQuery_inv dict dd startWord endWord Hod Hs) Hloop Hq)
      as [r Hinv].
    intros x. split.
    + intros Hx. destruct (inv_frontier _ _ _ _ _ _ Hinv x Hx)
        as [(r' & _ & Hw)|(p & []%elem_of_nil & _)].
      apply within_ladder in Hw as (ws & Hws & _). eauto.
    + intros [ws Hws%ladder_within].
      by apply (exhausted_closed dict startWord endWord r _ Hinv
                  (length ws - 1)).
Qed.

End DepthProofs.

(** ** The entry point *)

Lemma elem_of_append_missing (x y : word) (dict : list word) :
  x ∈ (if decide (y ∈ dict) then dict else dict ++ [y]) ↔ x = y ∨ x ∈ dict.
Proof.
  case_decide as Hy.
  - split; [auto|]. by intros [->|?].
  - rewrite elem_of_app, list_elem_of_singleton. tauto.
Qed.

Lemma elem_of_augment (s t x : word) (dict : list word) :
  x ∈ augment s t dict ↔ x = s ∨ x = t ∨ x ∈ dict.
Proof.
  unfold augment. rewrite elem_of_append_missing, elem_of_append_missing.
  tauto.
Qed.

Lemma augment_length_comm (s t : word) (dict : list word) :
  length (augment s t dict) = length (augment t s dict).
Proof.
  unfold augment.
  destruct (decide (s ∈ dict)) as [Hs|Hs], (decide (t ∈ dict)) as [Ht|Ht];
    repeat first
      [ rewrite (decide_True (P := s ∈ dict)) by done
      | rewrite (decide_True (P := t ∈ dict)) by done
      | rewrite (decide_False (P := s ∈ dict)) by done
      | rewrite (decide_False (P := t ∈ dict)) by done ].
  - done.
  - rewrite decide_True; [done|]. apply elem_of_app. by left.
  - rewrite decide_True; [done|]. apply elem_of_app. by left.
  - destruct (decide (s = t)) as [->|Hne]; [done|].
    rewrite !decide_False; [by rewrite !length_app | |].
    + intros [?| ->%list_elem_of_singleton]%elem_of_app; done.
    + intros [?| ->%list_elem_of_singleton]%elem_of_app; done.
Qed.

Lemma chain_reverse (ws : list word) : chain ws → chain (reverse ws).
Proof.
  induction ws as [|a ws IH]; [done|]. destruct ws as [|b ws].
  - done.
  - intros [Hab Hrest]. rewrite reverse_cons.
    apply (chain_snoc _ b a); [by rewrite last_reverse|].
    split; [by apply IH | by apply legal_sym].
Qed.

Lemma ladder_reverse (dict dict' ws : list word) (s t : word) :
  (∀ x, x ∈ dict → x ∈ dict') →
  ladder dict s t ws → ladder dict' t s (reverse ws).
Proof.
  intros Hsub (Hh & Hl & Hin & Hc). split_and!.
  - by rewrite head_reverse.
  - by rewrite last_reverse.
  - intros x Hx. rewrite elem_of_reverse in Hx. by apply Hsub, Hin.
  - by apply chain_reverse.
Qed.

Lemma ladder_subseteq (dict dict' ws : list word) (s t : word) :
  (∀ x, x ∈ dict → x ∈ dict') → ladder dict s t ws → ladder dict' s t ws.
Proof. intros Hsub (Hh & Hl & Hin & Hc). split_and!; auto. Qed.

Section AnswerProofs.
Context (H1 H2 : PyRuntime).

(** Two finished searches whose ladders correspond, length for length, give
    the same answer. *)
Lemma answer_agree dictA sA tA ddA dictB sB tB ddB :
  search_result dictA sA tA ddA →
  search_result dictB sB tB ddB →
  sA ≠ tA → sB ≠ tB →
  (∀ ws, ladder dictA sA tA ws →
         ∃ ws', ladder dictB sB tB ws' ∧ length ws' = length ws) →
  (∀ ws, ladder dictB sB tB ws →
         ∃ ws', ladder dictA sA tA ws' ∧ length ws' = length ws) →
  answer ddA = answer ddB.
Proof.
  intros HA HB HneA HneB HAB HBA.
  pose proof (answer_minus_one _ _ _ _ HA HneA) as HmA.
  pose proof (answer_minus_one _ _ _ _ HB HneB) as HmB.
  destruct (decide (answer ddA = (-1)%Z)) as [HaA|HaA],
           (decide (answer ddB = (-1)%Z)) as [HaB|HaB].
  - congruence.
  - destruct (answer_found _ _ _ _ HB HaB) as (q & _ & Hq & _).
    destruct (HBA _ Hq) as (ws' & Hws' & _).
    by destruct (proj1 HmA HaA ws').
  - destruct (answer_found _ _ _ _ HA HaA) as (q & _ & Hq & _).
    destruct (HAB _ Hq) as (ws' & Hws' & _).
    by destruct (proj1 HmB HaB ws').
  - destruct (answer_found _ _ _ _ HA HaA)
      as (qA & _ & HqA & HlenA & HminA).
    destruct (answer_found _ _ _ _ HB HaB)
      as (qB & _ & HqB & HlenB & HminB).
    destruct (HAB _ HqA) as (wsB & HwsB & HlB).
    destruct (HBA _ HqB) as (wsA & HwsA & HlA).
    specialize (HminA _ HwsA). specialize (HminB _ HwsB). lia.
Qed.

Lemma lengthOfShortestTransform_agree s1 t1 d1 r1 s2 t2 d2 r2 :
  (∀ x, x ∈ augment s1 t1 d1 → length x = length s1) → s1 ≠ [] →
  length (augment s1 t1 d1) ≤ r1 →
  (∀ x, x ∈ augment s2 t2 d2 → length x = length s2) → s2 ≠ [] →
  length (augment s2 t2 d2) ≤ r2 →
  (s1 = t1 ↔ s2 = t2) →
  (∀ ws, ladder (augment s1 t1 d1) s1 t1 ws →
         ∃ ws', ladder (augment s2 t2 d2) s2 t2 ws' ∧ length ws' = length ws) →
  (∀ ws, ladder (augment s2 t2 d2) s2 t2 ws →
         ∃ ws', ladder (augment s1 t1 d1) s1 t1 ws' ∧ length ws' = length ws) →
  snd (lengthOfShortestTransform (H := H1) r1 s1 t1 d1)
  = snd (lengthOfShortestTransform (H := H2) r2 s2 t2 d2).
Proof.
  intros Hu1 Hn1 Hr1 Hu2 Hn2 Hr2 Hst H12 H21.
  destruct (lengthOfShortestTransform_total (H := H1) r1 s1 t1 d1 Hu1 Hn1 Hr1)
    as [n1 Hres1].
  destruct (lengthOfShortestTransform_total (H := H2) r2 s2 t2 d2 Hu2 Hn2 Hr2)
    as [n2 Hres2].
  rewrite Hres1, Hres2. do 2 f_equal.
  apply lengthOfShortestTransform_sound in Hres1 as (dd1 & Hs1 & ->).
  apply lengthOfShortestTransform_sound in Hres2 as (dd2 & Hs2 & ->).
  destruct (decide (s1 = t1)) as [He1|He1].
  - pose proof (proj1 Hst He1) as He2. subst t1 t2.
    destruct Hs1 as [_ Hs1]. destruct Hs2 as [_ Hs2]. unfold answer.
    destruct (successfulPath dd1) as [q1|].
    { destruct Hs1 as (r & _ & _ & Hfar). destruct Hfar. constructor.
      apply augment_start. }
    destruct (successfulPath dd2) as [q2|]; [|done].
    destruct Hs2 as (r & _ & _ & Hfar). destruct Hfar. constructor.
    apply augment_start.
  - apply (answer_agree (augment s1 t1 d1) s1 t1 dd1
             (augment s2 t2 d2) s2 t2 dd2); try done. tauto.
Qed.

End AnswerProofs.

Section EntryProperties.
Context `{PyRuntime}.

(** X14.  A number that [lengthOfShortestTransform] returns is [-1] or lies
    between 1 and the number of words of the dictionary, start and end words
    added, less one. *)
Theorem lengthOfShortestTransform_range (rounds : nat)
    (startWord endWord : word) (dict : list word) (n : Z) :
  snd (lengthOfShortestTransform rounds startWord endWord dict) = Some (Ok n) →
  n = (-1)%Z ∨
  (1 ≤ n ≤ Z.of_nat (length (augment startWord endWord dict)) - 1)%Z.
Proof.
  intros (dd' & [_ Hres] & ->)%lengthOfShortestTransform_sound.
  unfold answer. destruct (successfulPath dd') as [q|]; [right | by left].
  destruct Hres as (r & ([e (_ & _ & Hin & _)] & Hlen & Hnd) & _).
  apply NoDup_submseteq in Hin; [|done]. apply submseteq_length in Hin.
  unfold numTransformations. lia.
Qed.

(** X15.  Start and end words of different lengths make
    [lengthOfShortestTransform] raise [ValueError], whatever the dictionary. *)
Theorem lengthOfShortestTransform_lengths (rounds : nat)
    (startWord endWord : word) (dict : list word) :
  length startWord ≠ length endWord →
  snd (lengthOfShortestTransform rounds startWord endWord dict)
  = Some (Raise ValueError).
Proof.
  intros Hlen. unfold lengthOfShortestTransform, DictionaryDash_init. simpl.
  destruct (OrganisedDictionary_init (augment startWord endWord dict))
    as [od|e] eqn:Hod; simpl.
  - apply init_index in Hod as (_ & _ & _ & Huni).
    destruct Hlen. apply Huni; apply elem_of_augment; auto.
  - by apply init_raise in Hod as [-> _].
Qed.

(** X16.  Over words of one non-zero length the number returned is the same in
    both directions. *)
Theorem lengthOfShortestTransform_symmetric (rounds : nat)
    (startWord endWord : word) (dict : list word) :
  (∀ x, x ∈ augment startWord endWord dict → length x = length startWord) →
  startWord ≠ [] →
  length (augment startWord endWord dict) ≤ rounds →
  snd (lengthOfShortestTransform rounds startWord endWord dict)
  = snd (lengthOfShortestTransform rounds endWord startWord dict).
Proof.
  intros Huni Hne Hrounds.
  assert (∀ x, x ∈ augment startWord endWord dict ↔
               x ∈ augment endWord startWord dict) as Hsame.
  { intros x. rewrite !elem_of_augment. tauto. }
  assert (length endWord = length startWord) as Hlen.
  { apply Huni, elem_of_augment. auto. }
  apply (lengthOfShortestTransform_agree H H); try done.
  - intros x Hx%Hsame. rewrite Hlen. by apply Huni.
  - intros ->. by destruct startWord.
  - by rewrite <- augment_length_comm.
  - intros ws Hws. exists (reverse ws). split; [|apply length_reverse].
    apply (ladder_reverse (augment startWord endWord dict)); [|done].
    intros x. apply Hsame.
  - intros ws Hws. exists (reverse ws). split; [|apply length_reverse].
    apply (ladder_reverse (augment endWord startWord dict)); [|done].
    intros x. apply Hsame.
Qed.

(** X17.  Over words of one non-zero length the number returned is [1] exactly
    when the end word is a legal transformation of the start word. *)
Theorem lengthOfShortestTransform_one (rounds : nat)
    (startWord endWord : word) (dict : list word) :
  (∀ x, x ∈ augment startWord endWord dict → length x = length startWord) →
  startWord ≠ [] →
  length (augment startWord endWord dict) ≤ rounds →
  snd (lengthOfShortestTransform rounds startWord endWord dict)
    = Some (Ok 1%Z) ↔
  legalTransformation startWord endWord = true.
Proof.
  intros Huni Hne Hrounds.
  destruct (lengthOfShortestTransform_total rounds startWord endWord dict
              Huni Hne Hrounds) as [n Hn].
  rewrite Hn.
  apply lengthOfShortestTransform_sound in Hn as (dd' & Hres & ->).
  split.
  - intros [= Hone].
    destruct (answer_found _ _ _ _ Hres) as (q & _ & Hq & Hlen & _); [lia|].
    destruct Hq as (Hh & Hl & _ & Hc).
    destruct (words q) as [|a [|b [|c l]]]; simpl in Hlen; try lia.
    simpl in Hh, Hl, Hc. injection Hh as ->. injection Hl as ->.
    by destruct Hc.
  - intros Hlegal.
    assert (startWord ≠ endWord) as Hst.
    { intros ->. by rewrite legal_irrefl in Hlegal. }
    assert (ladder (augment startWord endWord dict) startWord endWord
              [startWord; endWord]) as Hws.
    { split_and!; simpl; [done | done | | done].
      intros x Hx. apply elem_of_augment.
      apply elem_of_cons in Hx as [->|Hx]; [auto|].
      apply list_elem_of_singleton in Hx as ->. auto. }
    destruct (answer_found _ _ _ _ Hres) as (q & _ & Hq & Hlen & Hmin).
    { intros Hno. by destruct (proj1 (answer_minus_one _ _ _ _ Hres Hst) Hno
                                 [startWord; endWord]). }
    specialize (Hmin _ Hws). simpl in Hmin.
    destruct Hq as (Hh & Hl & _).
    destruct (words q) as [|a [|b l]]; simpl in Hlen; [done | |].
    + simpl in Hh, Hl. congruence.
    + do 2 f_equal. rewrite Hlen in *. simpl length in *. lia.
Qed.

(** X18.  A second call with the same two words leaves the caller's list as the
    first call left it. *)
Theorem lengthOfShortestTransform_again (rounds1 rounds2 : nat)
    (startWord endWord : word) (dict : list word) :
  fst (lengthOfShortestTransform rounds2 startWord endWord
         (fst (lengthOfShortestTransform rounds1 startWord endWord dict)))
  = fst (lengthOfShortestTransform rounds1 startWord endWord dict).
Proof.
  unfold lengthOfShortestTransform. simpl.
  unfold augment at 1.
  rewrite decide_True by (apply elem_of_augment; auto).
  by rewrite decide_True by (apply elem_of_augment; auto).
Qed.

End EntryProperties.

(** X19.  The number returned does not depend on the hash function, on the order
    in which sets are iterated, or on the order and repetitions of the
    dictionary, over words of one non-zero length. *)
Theorem lengthOfShortestTransform_independent (H1 H2 : PyRuntime)
    (rounds1 rounds2 : nat) (startWord endWord : word)
    (dict1 dict2 : list word) :
  (∀ x, x ∈ dict1 ↔ x ∈ dict2) →
  (∀ x, x ∈ augment startWord endWord dict1 → length x = length startWord) →
  startWord ≠ [] →
  length (augment startWord endWord dict1) ≤ rounds1 →
  length (augment startWord endWord dict2) ≤ rounds2 →
  snd (lengthOfShortestTransform (H := H1) rounds1 startWord endWord dict1)
  = snd (lengthOfShortestTransform (H := H2) rounds2 startWord endWord dict2).
Proof.
  intros Hsame Huni Hne Hr1 Hr2.
  assert (∀ x, x ∈ augment startWord endWord dict1 ↔
               x ∈ augment startWord endWord dict2) as Haug.
  { intros x. rewrite !elem_of_augment, Hsame. done. }
  apply (lengthOfShortestTransform_agree H1 H2); try done.
  - intros x Hx%Haug. by apply Huni.
  - intros ws Hws. exists ws. split; [|done].
    apply (ladder_subseteq (augment startWord endWord dict1)); [|done].
    intros x. apply Haug.
  - intros ws Hws. exists ws. split; [|done].
    apply (ladder_subseteq (augment startWord endWord dict2)); [|done].
    intros x. apply Haug.
Qed.

(** ** The further properties at concrete inputs *)


Lemma query_reuse_witness :
  ∃ dd1 r1,
    getShortestTransformationSequence (H := simple_runtime) 6 six_dash hot cog
      = Some (Ok (dd1, r1)) ∧
    ∀ m s2 t2,
      getShortestTransformationSequence (H := simple_runtime) m dd1 s2 t2
      = getShortestTransformationSequence (H := simple_runtime) m six_dash s2 t2.
Proof.
  destruct (getShortestTransformationSequence (H := simple_runtime)
              6 six_dash hot cog) as [[[dd1 r1]|e]|] eqn:Hrun;
    [|by vm_compute in Hrun|by vm_compute in Hrun].
  exists dd1, r1. split; [reflexivity|].
  apply (query_reuse (H := simple_runtime) six_dash dd1 6 hot cog r1 Hrun).
Defined.

Lemma returned_path_distinct_witness :
  NoDup (words {| words := [hot; dot; dog] |}) ∧
  2 ≤ length (words {| words := [hot; dot; dog] |}) ∧
  length (words {| words := [hot; dot; dog] |}) ≤ length six_words ∧
  hot ≠ dog.
Proof.
  eapply (returned_path_distinct (H := simple_runtime)
            six_words six_dash _ hot dog 6).
  - reflexivity.
  - vm_compute. reflexivity.
Defined.

Lemma search_rounds_witness :
  ∃ dd' p,
    getShortestTransformationSequence (H := simple_runtime) 6 six_dash hot cog
      = Some (Ok (dd', Some p)) ∧
    (numTransformations p ≤ Z.of_nat 6)%Z ∧
    (∀ n, (Z.of_nat n < numTransformations p)%Z →
          getShortestTransformationSequence (H := simple_runtime)
            n six_dash hot cog = None) ∧
    getShortestTransformationSequence (H := simple_runtime)
      (Z.to_nat (numTransformations p)) six_dash hot cog
      = Some (Ok (dd', Some p)).
Proof.
  destruct (getShortestTransformationSequence (H := simple_runtime)
              6 six_dash hot cog) as [[[dd' [p|]]|e]|] eqn:Hrun;
    [|by vm_compute in Hrun|by vm_compute in Hrun|by vm_compute in Hrun].
  exists dd', p. split; [reflexivity|].
  apply (search_rounds (H := simple_runtime) six_words six_dash dd' hot cog 6 p).
  - reflexivity.
  - exact Hrun.
Defined.

Lemma search_finds_witness :
  ∃ dd' p,
    getShortestTransformationSequence (H := simple_runtime) 3 six_dash hot cog
    = Some (Ok (dd', Some p)).
Proof.
  apply (search_finds (H := simple_runtime) six_words six_dash hot cog
           [hot; dot; dog; cog] 3).
  - reflexivity.
  - done.
  - done.
  - split_and!; [reflexivity | reflexivity | | by vm_compute].
    apply Forall_forall. repeat constructor.
  - simpl. lia.
Defined.

Lemma exhausted_reached_witness :
  ∃ dd',
    getShortestTransformationSequence (H := simple_runtime) 6 six_dash hot xyz
      = Some (Ok (dd', None)) ∧
    NoDup (reachedWords dd') ∧
    ∀ x, x ∈ reachedWords dd' ↔ ∃ ws, ladder six_words hot x ws.
Proof.
  destruct (getShortestTransformationSequence (H := simple_runtime)
              6 six_dash hot xyz) as [[[dd' [p|]]|e]|] eqn:Hrun;
    [by vm_compute in Hrun| |by vm_compute in Hrun|by vm_compute in Hrun].
  exists dd'. split; [reflexivity|].
  apply (exhausted_reached (H := simple_runtime) six_words six_dash dd' hot xyz 6).
  - reflexivity.
  - exact Hrun.
Defined.

Lemma lengthOfShortestTransform_range_witness :
  3%Z = (-1)%Z ∨
  (1 ≤ 3 ≤ Z.of_nat (length (augment hot cog six_words)) - 1)%Z.
Proof.
  apply (lengthOfShortestTransform_range (H := simple_runtime)
           6 hot cog six_words 3%Z).
  vm_compute. reflexivity.
Defined.

Lemma lengthOfShortestTransform_lengths_witness :
  snd (lengthOfShortestTransform (H := simple_runtime) 6 hot xy six_words)
  = Some (Raise ValueError).
Proof.
  apply (lengthOfShortestTransform_lengths (H := simple_runtime)).
  vm_compute. lia.
Defined.

Lemma lengthOfShortestTransform_symmetric_witness :
  snd (lengthOfShortestTransform (H := simple_runtime) 6 hot cog six_words)
  = snd (lengthOfShortestTransform (H := simple_runtime) 6 cog hot six_words).
Proof.
  apply (lengthOfShortestTransform_symmetric (H := simple_runtime)).
  - apply Forall_forall. vm_compute. repeat constructor.
  - done.
  - vm_compute. lia.
Defined.

Lemma lengthOfShortestTransform_one_witness :
  snd (lengthOfShortestTransform (H := simple_runtime) 6 hot dot six_words)
    = Some (Ok 1%Z) ↔
  legalTransformation hot dot = true.
Proof.
  apply (lengthOfShortestTransform_one (H := simple_runtime)).
  - apply Forall_forall. vm_compute. repeat constructor.
  - done.
  - vm_compute. lia.
Defined.

Lemma lengthOfShortestTransform_independent_witness :
  snd (lengthOfShortestTransform (H := simple_runtime) 6 hot cog six_words)
  = snd (lengthOfShortestTransform (H := reverse_runtime) 7 hot cog
           [cog; log; lot; dog; dot; hot; hot]).
Proof.
  apply (lengthOfShortestTransform_independent simple_runtime reverse_runtime).
  - intros x. unfold six_words.
    rewrite !elem_of_cons, !elem_of_nil. tauto.
  - apply Forall_forall. vm_compute. repeat constructor.
  - done.
  - vm_compute. lia.
  - vm_compute. lia.
Defined.
